(** * Verification of three adapters of the editor code base

    - [Theming]: the theming-participant registry (class [ThemingRegistry]
      of the theme service module);
    - [DocumentSymbols]: the conversion of a tsserver navigation tree into
      document symbols (features/documentSymbol.ts);
    - [QuickInput]: the derivation of the secondary chords of the quick-pick
      navigation rules (quickinput/browser/quickInputActions.ts).

    Every definition is a shallow embedding of the TypeScript function of the
    same name.  JavaScript arrays are lists, an array that is mutated in place
    is threaded through the calls as explicit state, and a closure returned by
    a method is a function on the state of the object it captures. *)

From Stdlib Require Import ZArith Lia Bool.
From stdpp Require Import base list strings.

Local Open Scope Z_scope.

(** ** JavaScript array primitives used by the sources *)

Module JsArray.
Section JsArray.
Context {A : Type} `{EqDecision A}.

(** [Array.prototype.indexOf]: the index of the first element strictly
    equal to [x], counted from [k]; [-1] when there is none. *)
Fixpoint indexOf_from (l : list A) (x : A) (k : Z) : Z :=
  match l with
  | [] => -1
  | y :: l' => if decide (y = x) then k else indexOf_from l' x (k + 1)
  end.

Definition indexOf (l : list A) (x : A) : Z := indexOf_from l x 0.

(** [Array.prototype.splice(start, deleteCount)] without inserted items:
    the array after the call.  A negative [start] counts from the end and
    is clamped at 0, a [start] past the end is clamped at the length, and
    the number of deleted elements is clamped to what is left. *)
Definition splice (l : list A) (start deleteCount : Z) : list A :=
  let len := Z.of_nat (length l) in
  let actualStart :=
    if start <? 0 then Z.max (len + start) 0 else Z.min start len in
  let actualDeleteCount := Z.min (Z.max deleteCount 0) (len - actualStart) in
  take (Z.to_nat actualStart) l
    ++ drop (Z.to_nat (actualStart + actualDeleteCount)) l.

(** [Array.prototype.push] of one element: the array after the call. *)
Definition push (l : list A) (x : A) : list A := l ++ [x].
End JsArray.
End JsArray.

(** ** Completions

    A call either returns a value or throws; for an [async] function the two
    cases are the promise being fulfilled and being rejected.  The thrown
    value is never inspected by the code under study and is not recorded. *)

Inductive Outcome (A : Type) : Type :=
| Returns (a : A)
| Throws.
Arguments Returns {A} a.
Arguments Throws {A}.

(** ** The theming-participant registry (class [ThemingRegistry]) *)

Module Theming.
Section Registry.
(** Participants are callbacks; [indexOf] compares them with [===], that is
    by identity, which is all the registry ever asks of them. *)
Context {IThemingParticipant : Type} `{EqDecision IThemingParticipant}.

(** The only field of the class. *)
Record ThemingRegistry : Type := mkThemingRegistry {
  themingParticipants : list IThemingParticipant
}.

(** [IDisposable]: the closure captures the registry object, so that
    [dispose] acts on the state the registry has when it is called. *)
Record IDisposable : Type := mkDisposable {
  dispose : ThemingRegistry -> ThemingRegistry
}.

(** [new ThemingRegistry()] *)
Definition constructor : ThemingRegistry := mkThemingRegistry [].

(** The body of the arrow function returned by [onThemeChange]. *)
Definition dispose_body (participant : IThemingParticipant)
    (this : ThemingRegistry) : ThemingRegistry :=
  let idx := JsArray.indexOf (themingParticipants this) participant in
  mkThemingRegistry (JsArray.splice (themingParticipants this) idx 1).

(** [onThemeChange(participant)]: the registry after the call and the
    handle that is returned. *)
Definition onThemeChange (participant : IThemingParticipant)
    (this : ThemingRegistry) : ThemingRegistry * IDisposable :=
  (mkThemingRegistry (JsArray.push (themingParticipants this) participant),
   mkDisposable (dispose_body participant)).

Definition getThemingParticipants (this : ThemingRegistry)
    : list IThemingParticipant :=
  themingParticipants this.
End Registry.
Arguments ThemingRegistry : clear implicits.
Arguments IDisposable : clear implicits.
End Theming.

(** ** The document-symbol provider (class [TypeScriptDocumentSymbolProvider]) *)

Module DocumentSymbols.

(** The members of [vscode.SymbolKind] that [getSymbolKind] can return. *)
Inductive SymbolKind : Type :=
| SymbolKind_Module
| SymbolKind_Class
| SymbolKind_Enum
| SymbolKind_Interface
| SymbolKind_Method
| SymbolKind_Property
| SymbolKind_Variable
| SymbolKind_Function.

(** What the provider imports and does not define itself: the protocol's
    table of kind strings ([PConst.Kind]), the types of text spans, ranges,
    resource identifiers and cancellation tokens, and the range converter
    [typeConverters.Range.fromTextSpan], declared on text spans. *)
Class Host : Type := mkHost {
  Uri : Type;
  CancellationToken : Type;
  TextSpan : Type;
  Range : Type;
  fromTextSpan : TextSpan -> Range;
  Kind_alias : string;
  Kind_module : string;
  Kind_class : string;
  Kind_enum : string;
  Kind_interface : string;
  Kind_memberFunction : string;
  Kind_memberVariable : string;
  Kind_memberGetAccessor : string;
  Kind_memberSetAccessor : string;
  Kind_variable : string;
  Kind_const : string;
  Kind_localVariable : string;
  Kind_function : string;
  Kind_localFunction : string
}.

Section Provider.
Context `{Host}.

(** [Proto.NavigationTree]; [childItems] is an optional property.  The
    induction principle that follows the nesting is [NavigationTree_ind]
    below. *)
Local Unset Elimination Schemes.
Inductive NavigationTree : Type := mkNavigationTree {
  text : string;
  kind : string;
  spans : list TextSpan;
  childItems : option (list NavigationTree)
}.

(** [vscode.DocumentSymbol]; the constructor leaves [children] empty.  The
    field [kind] is [symbolKind] here, apart from the [kind] of a tree. *)
Inductive DocumentSymbol : Type := mkDocumentSymbol {
  name : string;
  detail : string;
  symbolKind : SymbolKind;
  range : Range;
  selectionRange : Range;
  children : list DocumentSymbol
}.
Local Set Elimination Schemes.

(** The [switch] of [getSymbolKind], the cases tried in source order. *)
Definition getSymbolKind (kind : string) : SymbolKind :=
  if String.eqb kind Kind_module then SymbolKind_Module
  else if String.eqb kind Kind_class then SymbolKind_Class
  else if String.eqb kind Kind_enum then SymbolKind_Enum
  else if String.eqb kind Kind_interface then SymbolKind_Interface
  else if String.eqb kind Kind_memberFunction then SymbolKind_Method
  else if String.eqb kind Kind_memberVariable then SymbolKind_Property
  else if String.eqb kind Kind_memberGetAccessor then SymbolKind_Property
  else if String.eqb kind Kind_memberSetAccessor then SymbolKind_Property
  else if String.eqb kind Kind_variable then SymbolKind_Variable
  else if String.eqb kind Kind_const then SymbolKind_Variable
  else if String.eqb kind Kind_localVariable then SymbolKind_Variable
  else if String.eqb kind Kind_variable then SymbolKind_Variable
  else if String.eqb kind Kind_function then SymbolKind_Function
  else if String.eqb kind Kind_localFunction then SymbolKind_Function
  else SymbolKind_Variable.

(** Truthiness of a string: every string but the empty one. *)
Definition truthy_string (s : string) : bool := negb (String.eqb s "").

Definition shouldInclueEntry (item : NavigationTree) : bool :=
  if String.eqb (kind item) Kind_alias then false
  else truthy_string (text item)
       && negb (String.eqb (text item) "<function>")
       && negb (String.eqb (text item) "<class>").

(** [new vscode.DocumentSymbol(name, detail, kind, range, selectionRange)].
    The class belongs to the host and is not among the sources.  Its
    constructor validates the symbol it has built and throws when the name
    is falsy; its other check, that the range contains the selection
    range, is met here, where both are the same range.  The symbol starts
    with no children. *)
Definition new_DocumentSymbol (name_ detail_ : string) (kind_ : SymbolKind)
    (range_ selectionRange_ : Range) : Outcome DocumentSymbol :=
  if truthy_string name_
  then Returns (mkDocumentSymbol name_ detail_ kind_ range_ selectionRange_ [])
  else Throws.

(** The symbol once the recursive calls have pushed into its [children]. *)
Definition with_children (s : DocumentSymbol) (children_ : list DocumentSymbol)
    : DocumentSymbol :=
  mkDocumentSymbol (name s) (detail s) (symbolKind s) (range s)
    (selectionRange s) children_.

(** [convertNavTree(resource, bucket, item)]: the bucket after the call and
    the returned flag.  [symbolInfo.children] is the bucket of the recursive
    calls and is threaded through the loop.  The arguments of the
    constructor are evaluated first: [item.spans[0]] is read, and on an
    empty [spans] the read yields [undefined], which is outside the
    declared domain of [fromTextSpan]: the embedding takes the call to
    throw there.  The constructor then runs, and throws on an empty label,
    before the filter is consulted. *)
Fixpoint convertNavTree (resource : Uri) (bucket : list DocumentSymbol)
    (item : NavigationTree) : Outcome (list DocumentSymbol * bool) :=
  match spans item !! 0%nat with
  | None => Throws
  | Some span0 =>
    match
      new_DocumentSymbol (text item) "" (getSymbolKind (kind item))
        (fromTextSpan span0) (fromTextSpan span0)
    with
    | Throws => Throws
    | Returns symbolInfo =>
      let loop :=
        fix loop (items : list NavigationTree)
            (children_ : list DocumentSymbol) (shouldInclude : bool)
            : Outcome (list DocumentSymbol * bool) :=
          match items with
          | [] => Returns (children_, shouldInclude)
          | child :: items' =>
            match convertNavTree resource children_ child with
            | Throws => Throws
            | Returns (children', includedChild) =>
              loop items' children' (shouldInclude || includedChild)
            end
          end in
      let after_children :=
        match childItems item with
        | Some items =>
          loop items (children symbolInfo) (shouldInclueEntry item)
        | None => Returns (children symbolInfo, shouldInclueEntry item)
        end in
      match after_children with
      | Throws => Throws
      | Returns (children_, shouldInclude) =>
        Returns (if shouldInclude
                 then JsArray.push bucket (with_children symbolInfo children_)
                 else bucket,
                 shouldInclude)
      end
    end
  end.

(** The loop over [item.childItems] inside [convertNavTree], by name. *)
Fixpoint convertChildren (resource : Uri) (items : list NavigationTree)
    (children : list DocumentSymbol) (shouldInclude : bool)
    : Outcome (list DocumentSymbol * bool) :=
  match items with
  | [] => Returns (children, shouldInclude)
  | child :: items' =>
    match convertNavTree resource children child with
    | Throws => Throws
    | Returns (children', includedChild) =>
      convertChildren resource items' children' (shouldInclude || includedChild)
    end
  end.

(** [tree.childItems.forEach(item => convertNavTree(resource.uri, result, item))] *)
Fixpoint forEach_convertNavTree (resource : Uri) (items : list NavigationTree)
    (result : list DocumentSymbol) : Outcome (list DocumentSymbol) :=
  match items with
  | [] => Returns result
  | item :: items' =>
    match convertNavTree resource result item with
    | Throws => Throws
    | Returns (result', _) => forEach_convertNavTree resource items' result'
    end
  end.

Record TextDocument : Type := mkTextDocument { uri : Uri }.
Record FileRequestArgs : Type := mkFileRequestArgs { file : string }.
Record Response : Type := mkResponse { body : option NavigationTree }.

(** [ITypeScriptServiceClient]: [toPath] gives a path or nothing, [execute]
    a promise that is fulfilled with a response or rejected (a cancelled
    request is one or the other). *)
Record ITypeScriptServiceClient : Type := mkClient {
  toPath : Uri -> option string;
  execute : string -> FileRequestArgs -> CancellationToken -> Outcome Response
}.

(** [provideDocumentSymbols]: [None] is [undefined].  The [try] block
    surrounds the remote call only; the conversion runs after it. *)
Definition provideDocumentSymbols (client : ITypeScriptServiceClient)
    (resource : TextDocument) (token : CancellationToken)
    : Outcome (option (list DocumentSymbol)) :=
  match toPath client (uri resource) with
  | None => Returns None
  | Some file =>
    if negb (truthy_string file) then Returns None
    else
      match execute client "navtree" (mkFileRequestArgs file) token with
      | Throws => Returns None
      | Returns response =>
        match body response with
        | None => Returns None
        | Some tree =>
          match childItems tree with
          | Some items =>
            match forEach_convertNavTree (uri resource) items [] with
            | Throws => Throws
            | Returns result => Returns (Some result)
            end
          | None => Returns None
          end
        end
      end
  end.
(** *** Vocabulary for the statements about the conversion *)

Definition childrenOf (item : NavigationTree) : list NavigationTree :=
  match childItems item with
  | Some items => items
  | None => []
  end.

(** The nodes strictly below [item], in document order. *)
Fixpoint descendants (item : NavigationTree) : list NavigationTree :=
  match childItems item with
  | Some items =>
    (fix below (items : list NavigationTree) : list NavigationTree :=
       match items with
       | [] => []
       | child :: items' => child :: descendants child ++ below items'
       end) items
  | None => []
  end.

Definition nodes (item : NavigationTree) : list NavigationTree :=
  item :: descendants item.

(** The filtering rule holds of [item] or of a node below it. *)
Definition qualifies_within (item : NavigationTree) : bool :=
  existsb shouldInclueEntry (nodes item).

(** Every node of the tree carries at least one span. *)
Definition has_span (item : NavigationTree) : bool :=
  match spans item with
  | [] => false
  | _ :: _ => true
  end.

Definition all_have_span (item : NavigationTree) : bool :=
  forallb has_span (nodes item).

(** Every node of the tree has a non-empty label. *)
Definition has_label (item : NavigationTree) : bool :=
  truthy_string (text item).

Definition all_have_label (item : NavigationTree) : bool :=
  forallb has_label (nodes item).

(** Every node of the tree has at least one span and a non-empty label:
    the trees that [convertNavTree] converts without throwing. *)
Definition convertible (item : NavigationTree) : bool :=
  forallb (fun n => has_span n && has_label n) (nodes item).

(** The tree with the spans of every node cut down to the first one. *)
Fixpoint first_span_only (item : NavigationTree) : NavigationTree :=
  mkNavigationTree (text item) (kind item) (take 1 (spans item))
    (match childItems item with
     | Some items =>
       Some ((fix each (items : list NavigationTree) : list NavigationTree :=
                match items with
                | [] => []
                | child :: items' => first_span_only child :: each items'
                end) items)
     | None => None
     end).

(** The names of a symbol and of every symbol nested in it. *)
Fixpoint names_within (s : DocumentSymbol) : list string :=
  name s ::
  (fix each (l : list DocumentSymbol) : list string :=
     match l with
     | [] => []
     | c :: l' => names_within c ++ each l'
     end) (children s).

(** What a call of [convertNavTree] on [item] appends to its bucket when
    the call returns: nothing, or the one symbol built for [item] with,
    below it, what its child items append in turn. *)
Fixpoint emitted (item : NavigationTree) : list DocumentSymbol :=
  match spans item with
  | [] => []
  | span0 :: _ =>
    if qualifies_within item then
      [mkDocumentSymbol (text item) "" (getSymbolKind (kind item))
         (fromTextSpan span0) (fromTextSpan span0)
         (match childItems item with
          | Some items =>
            (fix each (items : list NavigationTree) : list DocumentSymbol :=
               match items with
               | [] => []
               | child :: items' => emitted child ++ each items'
               end) items
          | None => []
          end)]
    else []
  end.

(** Induction on navigation trees, the children under [Forall]. *)
Section NavigationTree_ind.
Variable P : NavigationTree -> Prop.
Hypothesis P_node : forall item, Forall P (childrenOf item) -> P item.

Fixpoint NavigationTree_ind (item : NavigationTree) : P item :=
  P_node item
    (match item as i return Forall P (childrenOf i) with
     | mkNavigationTree t k s c =>
       match c as c0
         return Forall P (childrenOf (mkNavigationTree t k s c0)) with
       | Some items =>
         (fix each (items : list NavigationTree) : Forall P items :=
            match items with
            | [] => List.Forall_nil P
            | child :: items' =>
              List.Forall_cons P child items'
                (NavigationTree_ind child) (each items')
            end) items
       | None => List.Forall_nil P
       end
     end).
End NavigationTree_ind.

(** The situations in which the provider has nothing to report: the
    resource has no path (none, or the empty one), the remote call is
    rejected, the response has no body, or the tree has no [childItems]. *)
Inductive no_result_case (client : ITypeScriptServiceClient)
    (resource : TextDocument) (token : CancellationToken) : Prop :=
| path_unresolved :
    toPath client (uri resource) = None ->
    no_result_case client resource token
| path_empty :
    toPath client (uri resource) = Some "" ->
    no_result_case client resource token
| call_rejected (file : string) :
    toPath client (uri resource) = Some file ->
    execute client "navtree" (mkFileRequestArgs file) token = Throws ->
    no_result_case client resource token
| body_absent (file : string) :
    toPath client (uri resource) = Some file ->
    execute client "navtree" (mkFileRequestArgs file) token
    = Returns (mkResponse None) ->
    no_result_case client resource token
| childItems_absent (file : string) (tree : NavigationTree) :
    toPath client (uri resource) = Some file ->
    execute client "navtree" (mkFileRequestArgs file) token
    = Returns (mkResponse (Some tree)) ->
    childItems tree = None ->
    no_result_case client resource token.

(** The answer of the remote call, when there is one with child items,
    has a span and a non-empty label on every node below the root. *)
Definition response_convertible (client : ITypeScriptServiceClient)
    (resource : TextDocument) (token : CancellationToken) : Prop :=
  forall file tree items,
    toPath client (uri resource) = Some file ->
    execute client "navtree" (mkFileRequestArgs file) token
    = Returns (mkResponse (Some tree)) ->
    childItems tree = Some items ->
    forallb convertible items = true.
End Provider.

(** *** A host for the closed examples

    The kind strings are those of the tsserver protocol; a span is a pair
    of offsets and the converter keeps it as it is. *)
Definition sampleHost : Host := {|
  Uri := string;
  CancellationToken := unit;
  TextSpan := Z * Z;
  Range := Z * Z;
  fromTextSpan := fun span => span;
  Kind_alias := "alias";
  Kind_module := "module";
  Kind_class := "class";
  Kind_enum := "enum";
  Kind_interface := "interface";
  Kind_memberFunction := "method";
  Kind_memberVariable := "property";
  Kind_memberGetAccessor := "getter";
  Kind_memberSetAccessor := "setter";
  Kind_variable := "var";
  Kind_const := "const";
  Kind_localVariable := "local var";
  Kind_function := "function";
  Kind_localFunction := "local function"
|}.

Section Samples.
Local Existing Instance sampleHost.

Definition sample_leaf (label kind_ : string) (span : Z * Z) : NavigationTree :=
  mkNavigationTree label kind_ [span] None.

Definition sample_node (label kind_ : string) (span : Z * Z)
    (items : list NavigationTree) : NavigationTree :=
  mkNavigationTree label kind_ [span] (Some items).

(** A file whose only child is an anonymous function declaring [x]. *)
Definition sample_function_tree : NavigationTree :=
  sample_node "<global>" "script" (0, 40)
    [sample_node "<function>" "function" (4, 36)
       [sample_leaf "x" "var" (20, 21)]].

(** A file whose only child is an alias with a variable below it. *)
Definition sample_alias_tree : NavigationTree :=
  sample_node "<global>" "script" (0, 40)
    [sample_node "fs" "alias" (7, 9)
       [sample_leaf "x" "var" (20, 21)]].

(** A client that resolves every resource and answers with [tree]. *)
Definition sample_client (tree : NavigationTree) : ITypeScriptServiceClient :=
  mkClient (fun u => Some u) (fun _ _ _ => Returns (mkResponse (Some tree))).

(** A client whose remote call is rejected. *)
Definition rejecting_client : ITypeScriptServiceClient :=
  mkClient (fun u => Some u) (fun _ _ _ => Throws).

Definition sample_document : TextDocument := mkTextDocument "/a.ts".

(** A file with a child that has no label, and one with a child that has
    no span. *)
Definition sample_unlabelled_tree : NavigationTree :=
  sample_node "<global>" "script" (0, 40) [sample_leaf "" "var" (20, 21)].

Definition sample_spanless_tree : NavigationTree :=
  sample_node "<global>" "script" (0, 40)
    [mkNavigationTree "x" "var" [] None].
End Samples.
End DocumentSymbols.

(** ** The quick-pick keybinding rules (quickInputActions.ts) *)

Module QuickInput.

(** What the file imports: the modifier bits of [KeyMod], the platform flag
    [isMacintosh], and the key codes its rules use.  Chords are numbers; the
    ones at hand are small integers and [+] on them is exact. *)
Class Platform : Type := mkPlatform {
  isMacintosh : bool;
  KeyMod_CtrlCmd : Z;
  KeyMod_Shift : Z;
  KeyMod_Alt : Z;
  KeyMod_WinCtrl : Z;
  KeyCode_DownArrow : Z;
  KeyCode_UpArrow : Z
}.

(** The [options] argument: each property is optional. *)
Record Options : Type := mkOptions {
  withAltMod : option bool;
  withCtrlMod : option bool;
  withCmdMod : option bool
}.

(** The default value [{}] of [options]. *)
Definition no_options : Options := mkOptions None None None.

(** Truthiness of an optional boolean property. *)
Definition truthy (b : option bool) : bool :=
  match b with
  | Some true => true
  | _ => false
  end.

Section Rules.
Context `{Platform}.

(** [getSecondary(primary, secondary, options)]: the array [secondary]
    after the pushes, which is also the array returned. *)
Definition getSecondary (primary : Z) (secondary : list Z) (options : Options)
    : list Z :=
  let secondary :=
    if truthy (withAltMod options)
    then JsArray.push secondary (KeyMod_Alt + primary)
    else secondary in
  let ctrlKeyMod := if isMacintosh then KeyMod_WinCtrl else KeyMod_CtrlCmd in
  let secondary :=
    if truthy (withCtrlMod options) then
      let secondary := JsArray.push secondary (ctrlKeyMod + primary) in
      if truthy (withAltMod options)
      then JsArray.push secondary (KeyMod_Alt + ctrlKeyMod + primary)
      else secondary
    else secondary in
  let secondary :=
    if truthy (withCmdMod options) && isMacintosh then
      let secondary := JsArray.push secondary (KeyMod_CtrlCmd + primary) in
      let secondary :=
        if truthy (withCtrlMod options)
        then JsArray.push secondary (KeyMod_CtrlCmd + KeyMod_WinCtrl + primary)
        else secondary in
      if truthy (withAltMod options) then
        let secondary :=
          JsArray.push secondary (KeyMod_CtrlCmd + KeyMod_Alt + primary) in
        if truthy (withCtrlMod options)
        then JsArray.push secondary
               (KeyMod_CtrlCmd + KeyMod_Alt + KeyMod_WinCtrl + primary)
        else secondary
      else secondary
    else secondary in
  secondary.

(** The part of a rule that [registerQuickPickCommandAndKeybindingRule]
    reads: [rule.primary!] and the optional [rule.secondary]. *)
Record Rule : Type := mkRule {
  id : string;
  primary : Z;
  secondary : option (list Z)
}.

(** The rule handed to [KeybindingsRegistry.registerCommandAndKeybindingRule]:
    the spread keeps [id] and [primary] and replaces [secondary]. *)
Definition registerQuickPickCommandAndKeybindingRule (rule : Rule)
    (options : Options) : Rule :=
  mkRule (id rule) (primary rule)
    (Some (getSecondary (primary rule) (default [] (secondary rule)) options)).

(** The two Macintosh separator rules that carry an explicit [secondary]. *)
Definition mac_nextSeparator : Rule :=
  mkRule "quickInput.nextSeparator"
    (KeyMod_CtrlCmd + KeyMod_Alt + KeyCode_DownArrow)
    (Some [KeyMod_CtrlCmd + KeyMod_WinCtrl + KeyCode_DownArrow]).

Definition mac_previousSeparator : Rule :=
  mkRule "quickInput.previousSeparator"
    (KeyMod_CtrlCmd + KeyMod_Alt + KeyCode_UpArrow)
    (Some [KeyMod_CtrlCmd + KeyMod_WinCtrl + KeyCode_UpArrow]).
End Rules.

(** *** The enumeration as the specification words it

    Seven combinations of the three modifiers, in the order of the
    specification; a combination is generated when each of its modifiers
    has its flag set, and one that bears the command modifier also needs
    the Macintosh platform. *)

Inductive Modifier : Type := Alt | Ctrl | Cmd.

Definition spec_enumeration : list (list Modifier) :=
  [ [Alt]; [Ctrl]; [Alt; Ctrl];
    [Cmd]; [Cmd; Ctrl]; [Cmd; Alt]; [Cmd; Alt; Ctrl] ].

Definition spec_flag (options : Options) (m : Modifier) : bool :=
  match m with
  | Alt => truthy (withAltMod options)
  | Ctrl => truthy (withCtrlMod options)
  | Cmd => truthy (withCmdMod options)
  end.

Definition bears_cmd (c : list Modifier) : bool :=
  existsb (fun m => match m with Cmd => true | _ => false end) c.

Section Enumeration.
Context `{Platform}.

Definition spec_generated (options : Options) (c : list Modifier) : bool :=
  forallb (spec_flag options) c && (negb (bears_cmd c) || isMacintosh).

Definition spec_combinations (options : Options) : list (list Modifier) :=
  List.filter (spec_generated options) spec_enumeration.

(** The bits of a modifier: the control modifier is [WinCtrl] on the
    Macintosh and [CtrlCmd] elsewhere; the command modifier, which only
    the Macintosh has, is [CtrlCmd]. *)
Definition spec_modifier_bits (m : Modifier) : Z :=
  match m with
  | Alt => KeyMod_Alt
  | Ctrl => if isMacintosh then KeyMod_WinCtrl else KeyMod_CtrlCmd
  | Cmd => KeyMod_CtrlCmd
  end.

Definition spec_chord (primary : Z) (c : list Modifier) : Z :=
  foldr (fun m acc => spec_modifier_bits m + acc) primary c.
End Enumeration.

(** *** Platforms for the closed examples: the modifier bits and arrow key
    codes of the editor, off and on the Macintosh. *)
Definition otherPlatform : Platform := {|
  isMacintosh := false;
  KeyMod_CtrlCmd := 2048;
  KeyMod_Shift := 1024;
  KeyMod_Alt := 512;
  KeyMod_WinCtrl := 256;
  KeyCode_DownArrow := 18;
  KeyCode_UpArrow := 16
|}.

Definition macPlatform : Platform := {|
  isMacintosh := true;
  KeyMod_CtrlCmd := 2048;
  KeyMod_Shift := 1024;
  KeyMod_Alt := 512;
  KeyMod_WinCtrl := 256;
  KeyCode_DownArrow := 18;
  KeyCode_UpArrow := 16
|}.

(** [{ withAltMod: true, withCtrlMod: true, withCmdMod: true }] *)
Definition all_options : Options :=
  mkOptions (Some true) (Some true) (Some true).
End QuickInput.

(** ** The module-level registry and sequences of registrations *)

Module ThemingUse.
Import Theming.
Section ThemingUse.
Context {IThemingParticipant : Type} `{EqDecision IThemingParticipant}.

(** [registerThemingParticipant(participant)]: the exported function, which
    forwards to the one registry of the module; the state of that registry
    is passed in and out. *)
Definition registerThemingParticipant (participant : IThemingParticipant)
    (themingRegistry : ThemingRegistry IThemingParticipant)
    : ThemingRegistry IThemingParticipant * IDisposable IThemingParticipant :=
  onThemeChange participant themingRegistry.

(** A run of calls of [registerThemingParticipant], one per participant and
    in the order of the list: the registry at the end and the handles that
    were returned, in the same order. *)
Fixpoint register_all (participants : list IThemingParticipant)
    (themingRegistry : ThemingRegistry IThemingParticipant)
    : ThemingRegistry IThemingParticipant
      * list (IDisposable IThemingParticipant) :=
  match participants with
  | [] => (themingRegistry, [])
  | participant :: rest =>
    let (registry1, handle) :=
      registerThemingParticipant participant themingRegistry in
    let (registry2, handles) := register_all rest registry1 in
    (registry2, handle :: handles)
  end.

(** A run of calls of [dispose], one per handle and in the order of the
    list. *)
Definition dispose_all (handles : list (IDisposable IThemingParticipant))
    (themingRegistry : ThemingRegistry IThemingParticipant)
    : ThemingRegistry IThemingParticipant :=
  fold_left (fun registry handle => dispose handle registry)
    handles themingRegistry.

(** The list without the first occurrence of [participant]. *)
Fixpoint remove_first (participant : IThemingParticipant)
    (l : list IThemingParticipant) : list IThemingParticipant :=
  match l with
  | [] => []
  | x :: l' =>
    if decide (x = participant) then l' else x :: remove_first participant l'
  end.
End ThemingUse.
End ThemingUse.

(** ** More vocabulary for document symbols *)

Module DocumentSymbolsUse.
Import DocumentSymbols.
Section DocumentSymbolsUse.
Context `{Host}.

(** A symbol and every symbol nested in it, in document order. *)
Fixpoint symbols_within (s : DocumentSymbol) : list DocumentSymbol :=
  s ::
  (fix each (l : list DocumentSymbol) : list DocumentSymbol :=
     match l with
     | [] => []
     | c :: l' => symbols_within c ++ each l'
     end) (children s).

(** The kind strings that [getSymbolKind] has a case for. *)
Definition known_kinds : list string :=
  [Kind_module; Kind_class; Kind_enum; Kind_interface; Kind_memberFunction;
   Kind_memberVariable; Kind_memberGetAccessor; Kind_memberSetAccessor;
   Kind_variable; Kind_const; Kind_localVariable; Kind_function;
   Kind_localFunction].
End DocumentSymbolsUse.
End DocumentSymbolsUse.

(** ** The quick-pick commands: handlers and the rules the module registers *)

Module QuickInputUse.
Import QuickInput.

(** The other key codes of the rules, and the members of [QuickPickFocus]
    that the module uses; both enumerations are numeric. *)
Class KeyCodes : Type := mkKeyCodes {
  KeyCode_PageDown : Z;
  KeyCode_PageUp : Z;
  KeyCode_Home : Z;
  KeyCode_End : Z
}.

Class QuickPickFocus : Type := mkQuickPickFocus {
  QuickPickFocus_First : Z;
  QuickPickFocus_Last : Z;
  QuickPickFocus_Next : Z;
  QuickPickFocus_Previous : Z;
  QuickPickFocus_NextPage : Z;
  QuickPickFocus_PreviousPage : Z;
  QuickPickFocus_NextSeparator : Z;
  QuickPickFocus_PreviousSeparator : Z
}.

(** The part of the current quick pick that a handler reads: whether
    [quickNavigate] is set. *)
Record IQuickPick : Type := mkQuickPick { quickNavigate : bool }.

(** Truthiness of an optional member of a numeric enumeration. *)
Definition truthy_focus (focus : option Z) : bool :=
  match focus with
  | Some value => negb (value =? 0)
  | None => false
  end.

(** [focusHandler(focus, focusOnQuickNatigate)] applied to the accessor:
    [currentQuickInput] is what the quick-input service holds, and the
    result is the argument of the one call of [currentQuickPick.focus], or
    nothing when the handler returns without that call. *)
Definition focusHandler (focus : Z) (focusOnQuickNatigate : option Z)
    (currentQuickInput : option IQuickPick) : option Z :=
  match currentQuickInput with
  | None => None
  | Some currentQuickPick =>
    if truthy_focus focusOnQuickNatigate && quickNavigate currentQuickPick
    then focusOnQuickNatigate
    else Some focus
  end.

(** A registered command: the rule handed to the keybindings registry and
    its handler. *)
Record Registration : Type := mkRegistration {
  rule : Rule;
  handler : option IQuickPick -> option Z
}.

Section Registrations.
Context {platform : Platform} {keyCodes : KeyCodes}
  {focusCodes : QuickPickFocus}.

Definition register (rule_ : Rule) (handler_ : option IQuickPick -> option Z)
    (options : Options) : Registration :=
  mkRegistration (registerQuickPickCommandAndKeybindingRule rule_ options)
    handler_.

(** The calls of [registerQuickPickCommandAndKeybindingRule] at the top
    level of the module, in their order. *)
Definition registrations : list Registration :=
  [ register (mkRule "quickInput.pageNext" KeyCode_PageDown None)
      (focusHandler QuickPickFocus_NextPage None) all_options;
    register (mkRule "quickInput.pagePrevious" KeyCode_PageUp None)
      (focusHandler QuickPickFocus_PreviousPage None) all_options;
    register (mkRule "quickInput.first" KeyCode_Home None)
      (focusHandler QuickPickFocus_First None) all_options;
    register (mkRule "quickInput.last" KeyCode_End None)
      (focusHandler QuickPickFocus_Last None) all_options;
    register (mkRule "quickInput.next" KeyCode_DownArrow None)
      (focusHandler QuickPickFocus_Next None)
      (mkOptions None (Some true) None);
    register (mkRule "quickInput.previous" KeyCode_UpArrow None)
      (focusHandler QuickPickFocus_Previous None)
      (mkOptions None (Some true) None) ]
  ++
  if isMacintosh then
    [ register
        (mkRule "quickInput.nextSeparatorWithQuickAccessFallback"
           (KeyMod_CtrlCmd + KeyCode_DownArrow) None)
        (focusHandler QuickPickFocus_NextSeparator (Some QuickPickFocus_Next))
        no_options;
      register mac_nextSeparator
        (focusHandler QuickPickFocus_NextSeparator None)
        (mkOptions None (Some true) None);
      register
        (mkRule "quickInput.previousSeparatorWithQuickAccessFallback"
           (KeyMod_CtrlCmd + KeyCode_UpArrow) None)
        (focusHandler QuickPickFocus_PreviousSeparator
           (Some QuickPickFocus_Previous))
        no_options;
      register mac_previousSeparator
        (focusHandler QuickPickFocus_PreviousSeparator None)
        (mkOptions None (Some true) None) ]
  else
    [ register
        (mkRule "quickInput.nextSeparatorWithQuickAccessFallback"
           (KeyMod_Alt + KeyCode_DownArrow) None)
        (focusHandler QuickPickFocus_NextSeparator (Some QuickPickFocus_Next))
        no_options;
      register
        (mkRule "quickInput.nextSeparator"
           (KeyMod_CtrlCmd + KeyMod_Alt + KeyCode_DownArrow) None)
        (focusHandler QuickPickFocus_NextSeparator None) no_options;
      register
        (mkRule "quickInput.previousSeparatorWithQuickAccessFallback"
           (KeyMod_Alt + KeyCode_UpArrow) None)
        (focusHandler QuickPickFocus_PreviousSeparator
           (Some QuickPickFocus_Previous))
        no_options;
      register
        (mkRule "quickInput.previousSeparator"
           (KeyMod_CtrlCmd + KeyMod_Alt + KeyCode_UpArrow) None)
        (focusHandler QuickPickFocus_PreviousSeparator None) no_options ].

(** Every chord bound by a registered rule: the primary one, then the
    secondary ones. *)
Definition chords (r : Registration) : list Z :=
  primary (rule r) :: default [] (secondary (rule r)).

(** Running the command of a given id: nothing when no such command is
    registered, else what its handler does. *)
Definition run_command (id_ : string) (currentQuickInput : option IQuickPick)
    : option (option Z) :=
  match List.find (fun r => String.eqb (id (rule r)) id_) registrations with
  | Some r => Some (handler r currentQuickInput)
  | None => None
  end.

(** The number of flags of [options] that are in force on the platform. *)
Definition flags_in_force (options : Options) : nat :=
  (if truthy (withAltMod options) then 1 else 0)
  + (if truthy (withCtrlMod options) then 1 else 0)
  + (if truthy (withCmdMod options) && isMacintosh then 1 else 0).

(** The layout of chords that the editor uses: key codes lie below the
    lowest modifier bit, and each modifier bit is at least twice the one
    below it. *)
Definition chord_layout : Prop :=
  NoDup [KeyCode_PageDown; KeyCode_PageUp; KeyCode_Home; KeyCode_End;
         KeyCode_DownArrow; KeyCode_UpArrow]
  /\ Forall (fun k => 0 <= k < KeyMod_WinCtrl)
       [KeyCode_PageDown; KeyCode_PageUp; KeyCode_Home; KeyCode_End;
        KeyCode_DownArrow; KeyCode_UpArrow]
  /\ 2 * KeyMod_WinCtrl <= KeyMod_Alt
  /\ KeyMod_Alt + 2 * KeyMod_WinCtrl <= KeyMod_CtrlCmd.
End Registrations.

(** *** Chords read as a set of modifiers and a key

    A reading of the chords of the registered rules that the proof of
    their distinctness goes through: which of the bits [WinCtrl], [Alt]
    and [CtrlCmd] a chord has, and which key. *)

Inductive Key : Type :=
| Key_PageDown | Key_PageUp | Key_Home | Key_End
| Key_DownArrow | Key_UpArrow.

#[global] Instance Key_eq_dec : EqDecision Key.
Proof. solve_decision. Defined.

Definition SymbolicChord : Type := bool * bool * bool * Key.

Section SymbolicChords.
Context {platform : Platform} {keyCodes : KeyCodes}.

Definition keycode (k : Key) : Z :=
  match k with
  | Key_PageDown => KeyCode_PageDown
  | Key_PageUp => KeyCode_PageUp
  | Key_Home => KeyCode_Home
  | Key_End => KeyCode_End
  | Key_DownArrow => KeyCode_DownArrow
  | Key_UpArrow => KeyCode_UpArrow
  end.

Definition chord_value (c : SymbolicChord) : Z :=
  let '(winCtrl, alt, ctrlCmd, k) := c in
  (if winCtrl then KeyMod_WinCtrl else 0)
  + (if alt then KeyMod_Alt else 0)
  + (if ctrlCmd then KeyMod_CtrlCmd else 0)
  + keycode k.

Definition with_key (k : Key) (mods : list (bool * bool * bool))
    : list SymbolicChord :=
  map (fun m => (m, k)) mods.

(** The chords of [registrations], rule after rule, on either platform. *)
Definition symbolic_chords (mac : bool) : list SymbolicChord :=
  let plain := (false, false, false) in
  let w := (true, false, false) in
  let a := (false, true, false) in
  let wa := (true, true, false) in
  let c := (false, false, true) in
  let wc := (true, false, true) in
  let ac := (false, true, true) in
  let wac := (true, true, true) in
  if mac then
    with_key Key_PageDown [plain; a; w; wa; c; wc; ac; wac]
    ++ with_key Key_PageUp [plain; a; w; wa; c; wc; ac; wac]
    ++ with_key Key_Home [plain; a; w; wa; c; wc; ac; wac]
    ++ with_key Key_End [plain; a; w; wa; c; wc; ac; wac]
    ++ with_key Key_DownArrow [plain; w]
    ++ with_key Key_UpArrow [plain; w]
    ++ with_key Key_DownArrow [c; ac; wc; wac]
    ++ with_key Key_UpArrow [c; ac; wc; wac]
  else
    with_key Key_PageDown [plain; a; c; ac]
    ++ with_key Key_PageUp [plain; a; c; ac]
    ++ with_key Key_Home [plain; a; c; ac]
    ++ with_key Key_End [plain; a; c; ac]
    ++ with_key Key_DownArrow [plain; c]
    ++ with_key Key_UpArrow [plain; c]
    ++ with_key Key_DownArrow [a; ac]
    ++ with_key Key_UpArrow [a; ac].
End SymbolicChords.

(** Each set flag of [options] is set in [options']. *)
Definition flags_le (options options' : Options) : Prop :=
  (truthy (withAltMod options) = true -> truthy (withAltMod options') = true)
  /\ (truthy (withCtrlMod options) = true
      -> truthy (withCtrlMod options') = true)
  /\ (truthy (withCmdMod options) = true
      -> truthy (withCmdMod options') = true).

(** The codes of the editor for the closed examples. *)
Definition editorKeyCodes : KeyCodes := {|
  KeyCode_PageDown := 12;
  KeyCode_PageUp := 11;
  KeyCode_Home := 14;
  KeyCode_End := 13
|}.

Definition editorQuickPickFocus : QuickPickFocus := {|
  QuickPickFocus_First := 1;
  QuickPickFocus_Last := 3;
  QuickPickFocus_Next := 4;
  QuickPickFocus_Previous := 5;
  QuickPickFocus_NextPage := 6;
  QuickPickFocus_PreviousPage := 7;
  QuickPickFocus_NextSeparator := 8;
  QuickPickFocus_PreviousSeparator := 9
|}.
End QuickInputUse.

(** * Properties *)

(** ** Array primitives *)

Module JsArrayFacts.
Import JsArray.
Section JsArrayFacts.
Context {A : Type} `{EqDecision A}.

Lemma indexOf_from_notin (l : list A) (x : A) (k : Z) :
  x ∉ l -> indexOf_from l x k = -1.
Proof.
  revert k; induction l as [|y l IH]; intros k Hx; simpl; [reflexivity|].
  apply not_elem_of_cons in Hx as [Hne Hx].
  destruct (decide (y = x)) as [->|_]; [contradiction|]. now apply IH.
Qed.

Lemma indexOf_from_app (l1 l2 : list A) (x : A) (k : Z) :
  x ∉ l1 ->
  indexOf_from (l1 ++ x :: l2) x k = k + Z.of_nat (length l1).
Proof.
  revert k; induction l1 as [|y l1 IH]; intros k Hx; simpl.
  - destruct (decide (x = x)); [lia|contradiction].
  - apply not_elem_of_cons in Hx as [Hne Hx].
    destruct (decide (y = x)) as [->|_]; [contradiction|].
    rewrite IH by assumption. lia.
Qed.

Lemma indexOf_notin (l : list A) (x : A) : x ∉ l -> indexOf l x = -1.
Proof. apply indexOf_from_notin. Qed.

Lemma indexOf_app (l1 l2 : list A) (x : A) :
  x ∉ l1 -> indexOf (l1 ++ x :: l2) x = Z.of_nat (length l1).
Proof. intros Hx. unfold indexOf. now rewrite indexOf_from_app. Qed.

(** Splitting a list at the first occurrence of one of its elements. *)
Lemma first_occurrence (l : list A) (x : A) :
  x ∈ l -> exists l1 l2, l = l1 ++ x :: l2 /\ x ∉ l1.
Proof.
  induction l as [|y l IH]; intros Hx; [now apply elem_of_nil in Hx|].
  destruct (decide (y = x)) as [->|Hne].
  - exists [], l. split; [reflexivity|apply not_elem_of_nil].
  - apply elem_of_cons in Hx as [->|Hx]; [contradiction|].
    destruct (IH Hx) as (l1 & l2 & -> & Hl1).
    exists (y :: l1), l2. split; [reflexivity|].
    apply not_elem_of_cons. split; [congruence|assumption].
Qed.

(** [splice(i, 1)] at a valid index deletes the element at that index. *)
Lemma splice_at (l1 l2 : list A) (x : A) :
  splice (l1 ++ x :: l2) (Z.of_nat (length l1)) 1 = l1 ++ l2.
Proof.
  unfold splice. rewrite length_app. simpl length.
  replace (Z.of_nat (length l1) <? 0) with false
    by (symmetry; apply Z.ltb_ge; lia).
  rewrite Z.min_l by lia.
  rewrite (Z.max_l 1 0) by lia.
  rewrite (Z.min_l 1) by lia.
  rewrite Nat2Z.id.
  replace (Z.to_nat (Z.of_nat (length l1) + 1)) with (length l1 + 1)%nat by lia.
  rewrite take_app_length.
  replace (length l1 + 1)%nat with (length (l1 ++ [x]))
    by (rewrite length_app; reflexivity).
  rewrite (cons_middle x l1 l2), app_assoc, drop_app_length. reflexivity.
Qed.

(** [splice(-1, 1)] on a non-empty array deletes its last element,
    whatever that element is. *)
Lemma splice_minus_one_last (l : list A) (y : A) :
  splice (l ++ [y]) (-1) 1 = l.
Proof.
  unfold splice. rewrite length_app. simpl length.
  replace (-1 <? 0) with true by reflexivity.
  rewrite Z.max_l by lia.
  rewrite (Z.max_l 1 0) by lia.
  rewrite (Z.min_l 1) by lia.
  replace (Z.to_nat (Z.of_nat (length l + 1) + -1)) with (length l) by lia.
  replace (Z.to_nat (Z.of_nat (length l + 1) + -1 + 1))
    with (length (l ++ [y])) by (rewrite length_app; simpl; lia).
  rewrite take_app_length, drop_all. apply app_nil_r.
Qed.

Lemma splice_minus_one_nil : splice (@nil A) (-1) 1 = [].
Proof. reflexivity. Qed.
End JsArrayFacts.
End JsArrayFacts.

(** ** The theming registry *)

Module ThemingFacts.
Import JsArray JsArrayFacts Theming.
Section ThemingFacts.
Context {P : Type} `{EqDecision P}.
Implicit Types (p q : P) (l : list P) (reg : ThemingRegistry P).

(** Disposal while the participant is in the list deletes its first
    occurrence and nothing else. *)
Lemma dispose_body_present p l1 l2 :
  p ∉ l1 ->
  dispose_body p (mkThemingRegistry (l1 ++ p :: l2))
  = mkThemingRegistry (l1 ++ l2).
Proof.
  intros Hp. unfold dispose_body. simpl.
  now rewrite indexOf_app, splice_at.
Qed.

(** Disposal once the participant is gone: [indexOf] answers [-1] and the
    splice deletes the last participant of a non-empty list. *)
Lemma dispose_body_absent p l q :
  p ∉ l ++ [q] ->
  dispose_body p (mkThemingRegistry (l ++ [q])) = mkThemingRegistry l.
Proof.
  intros Hp. unfold dispose_body. simpl.
  now rewrite indexOf_notin, splice_minus_one_last.
Qed.

Lemma dispose_body_empty p :
  dispose_body p (mkThemingRegistry []) = mkThemingRegistry [].
Proof. reflexivity. Qed.

(** The first half of the disposal contract holds: the first call of the
    handle returned by [onThemeChange p] deletes exactly one occurrence of
    [p], the first one. *)
Lemma first_dispose_removes_one_occurrence p reg :
  exists l1 l2,
    getThemingParticipants (fst (onThemeChange p reg)) = l1 ++ p :: l2
    /\ (p ∉ l1)
    /\ getThemingParticipants
         (dispose (snd (onThemeChange p reg)) (fst (onThemeChange p reg)))
       = l1 ++ l2.
Proof.
  destruct reg as [l]. unfold getThemingParticipants, onThemeChange, push.
  cbn [fst snd dispose themingParticipants].
  destruct (first_occurrence (l ++ [p]) p) as (l1 & l2 & Heq & Hl1).
  { apply elem_of_app. right. apply list_elem_of_singleton. reflexivity. }
  exists l1, l2. rewrite Heq. split; [reflexivity|]. split; [assumption|].
  now rewrite dispose_body_present.
Qed.

(** Registration followed by disposal, in general: an earlier registration
    of the same participant is the one that is deleted, and the list ends
    up with its first occurrence of [p] moved to the end. *)
Lemma register_dispose_moves_first_occurrence p l1 l2 :
  p ∉ l1 ->
  getThemingParticipants
    (dispose (snd (onThemeChange p (mkThemingRegistry (l1 ++ p :: l2))))
             (fst (onThemeChange p (mkThemingRegistry (l1 ++ p :: l2)))))
  = l1 ++ l2 ++ [p].
Proof.
  intros Hp. unfold getThemingParticipants, onThemeChange, push.
  cbn [fst snd dispose themingParticipants].
  rewrite <- app_assoc. cbn [app].
  now rewrite dispose_body_present.
Qed.

(** C4, as amended: registering a participant that is not yet in the list
    and disposing of the handle at once gives back the list there was
    before the registration. *)
Theorem register_then_dispose_restores p reg :
  p ∉ getThemingParticipants reg ->
  getThemingParticipants
    (dispose (snd (onThemeChange p reg)) (fst (onThemeChange p reg)))
  = getThemingParticipants reg.
Proof.
  destruct reg as [l]. unfold getThemingParticipants, onThemeChange, push.
  cbn [fst snd dispose themingParticipants]. intros Hp.
  rewrite dispose_body_present by assumption.
  cbn [themingParticipants]. apply app_nil_r.
Qed.
End ThemingFacts.

Lemma register_then_dispose_restores_witness :
  (3%nat ∉ getThemingParticipants (mkThemingRegistry [1; 2]%nat))
  /\ getThemingParticipants
       (dispose (snd (onThemeChange 3%nat (mkThemingRegistry [1; 2]%nat)))
                (fst (onThemeChange 3%nat (mkThemingRegistry [1; 2]%nat))))
     = [1; 2]%nat.
Proof.
  assert (Hp : 3%nat ∉ getThemingParticipants (mkThemingRegistry [1; 2]%nat)).
  { unfold getThemingParticipants. simpl. intros Hin.
    repeat (apply elem_of_cons in Hin as [Hin|Hin]; [discriminate|]).
    now apply elem_of_nil in Hin. }
  split; [exact Hp|].
  exact (register_then_dispose_restores 3%nat (mkThemingRegistry [1; 2]%nat) Hp).
Defined.

(** C4, as stated, fails: with participant 1 already registered ahead of
    participant 2, registering 1 again and disposing of the new handle
    deletes the old registration, and the list [1; 2] becomes [2; 1]. *)
Lemma register_then_dispose_reorders :
  let reg := mkThemingRegistry [1; 2]%nat in
  getThemingParticipants
    (dispose (snd (onThemeChange 1%nat reg)) (fst (onThemeChange 1%nat reg)))
  = [2; 1]%nat
  /\ getThemingParticipants
       (dispose (snd (onThemeChange 1%nat reg)) (fst (onThemeChange 1%nat reg)))
     <> getThemingParticipants reg.
Proof. simpl. split; [reflexivity|discriminate]. Qed.

(** C3 at the failing input: participant 1 is registered, then participant
    2; the handle of participant 1 is disposed of twice.  The first call
    deletes participant 1.  The second call finds nothing, [indexOf]
    answers [-1], and [splice(-1, 1)] deletes participant 2: the second
    call is not a no-op. *)
Theorem second_dispose_removes_other_participant :
  let r1 := (fst (onThemeChange 1%nat constructor)) in
  let h1 := (snd (onThemeChange 1%nat constructor)) in
  let r2 := (fst (onThemeChange 2%nat r1)) in
  let r3 := dispose h1 r2 in
  let r4 := dispose h1 r3 in
  getThemingParticipants r2 = [1; 2]%nat
  /\ getThemingParticipants r3 = [2]%nat
  /\ getThemingParticipants r4 = []
  /\ getThemingParticipants r4 <> getThemingParticipants r3.
Proof. simpl. repeat split; discriminate. Qed.
End ThemingFacts.

(** ** The document-symbol provider *)

Module DocumentSymbolsFacts.
Import JsArray DocumentSymbols.
Section DocumentSymbolsFacts.
Context `{Host}.
Implicit Types (item child : NavigationTree) (items : list NavigationTree).
Implicit Types (bucket : list DocumentSymbol) (resource : Uri).

(** *** Unfolding equations *)

Lemma descendants_eq item :
  descendants item = flat_map nodes (childrenOf item).
Proof.
  destruct item as [t k s [items|]]; [|reflexivity].
  unfold childrenOf. simpl.
  induction items as [|c items IH]; [reflexivity|].
  simpl. now rewrite IH.
Qed.

Lemma nodes_eq item :
  nodes item = item :: flat_map nodes (childrenOf item).
Proof. unfold nodes. now rewrite descendants_eq. Qed.

Lemma existsb_flat_map {A B : Type} (f : B -> bool) (g : A -> list B)
    (l : list A) :
  existsb f (flat_map g l) = existsb (fun a => existsb f (g a)) l.
Proof.
  induction l as [|a l IH]; [reflexivity|].
  simpl. now rewrite existsb_app, IH.
Qed.

Lemma forallb_flat_map {A B : Type} (f : B -> bool) (g : A -> list B)
    (l : list A) :
  forallb f (flat_map g l) = forallb (fun a => forallb f (g a)) l.
Proof.
  induction l as [|a l IH]; [reflexivity|].
  simpl. now rewrite forallb_app, IH.
Qed.

Lemma qualifies_within_eq item :
  qualifies_within item
  = shouldInclueEntry item || existsb qualifies_within (childrenOf item).
Proof.
  unfold qualifies_within at 1. rewrite nodes_eq. simpl.
  now rewrite existsb_flat_map.
Qed.

Lemma all_have_span_eq item :
  all_have_span item
  = has_span item && forallb all_have_span (childrenOf item).
Proof.
  unfold all_have_span at 1. rewrite nodes_eq. simpl.
  now rewrite forallb_flat_map.
Qed.

Lemma convertible_eq item :
  convertible item
  = has_span item && has_label item && forallb convertible (childrenOf item).
Proof.
  unfold convertible at 1. rewrite nodes_eq. simpl.
  now rewrite forallb_flat_map.
Qed.

Lemma convertible_inv item :
  convertible item = true ->
  has_span item = true /\ has_label item = true
  /\ forallb convertible (childrenOf item) = true.
Proof.
  rewrite convertible_eq. intros Hc.
  apply andb_true_iff in Hc as [Hc Hcs]. apply andb_true_iff in Hc as [Hs Hl].
  now repeat split.
Qed.

Lemma convertible_split item :
  convertible item = all_have_span item && all_have_label item.
Proof.
  unfold convertible, all_have_span, all_have_label.
  induction (nodes item) as [|n l IH]; [reflexivity|].
  simpl. rewrite IH.
  destruct (has_span n), (has_label n), (forallb has_span l); reflexivity.
Qed.

Lemma emitted_eq item :
  emitted item
  = match spans item with
    | [] => []
    | span0 :: _ =>
      if qualifies_within item then
        [mkDocumentSymbol (text item) "" (getSymbolKind (kind item))
           (fromTextSpan span0) (fromTextSpan span0)
           (flat_map emitted (childrenOf item))]
      else []
    end.
Proof.
  destruct item as [t k [|span0 s] c]; [reflexivity|].
  simpl. destruct (qualifies_within _); [|reflexivity].
  do 2 f_equal. destruct c as [items|]; [|reflexivity].
  unfold childrenOf. simpl.
  induction items as [|c items IH]; [reflexivity|].
  simpl. now rewrite IH.
Qed.

Lemma convertNavTree_eq resource bucket item :
  convertNavTree resource bucket item
  = match spans item !! 0%nat with
    | None => Throws
    | Some span0 =>
      if truthy_string (text item) then
        match
          match childItems item with
          | Some items =>
            convertChildren resource items [] (shouldInclueEntry item)
          | None => Returns ([], shouldInclueEntry item)
          end
        with
        | Throws => Throws
        | Returns (children, shouldInclude) =>
          Returns
            (if shouldInclude
             then push bucket
                    (mkDocumentSymbol (text item) ""
                       (getSymbolKind (kind item))
                       (fromTextSpan span0) (fromTextSpan span0) children)
             else bucket,
             shouldInclude)
        end
      else Throws
    end.
Proof.
  destruct item as [t k s c]. simpl.
  destruct (s !! 0%nat) as [span0|]; [|reflexivity].
  unfold new_DocumentSymbol.
  destruct (truthy_string t); [|reflexivity].
  cbn [children with_children name detail symbolKind range selectionRange].
  destruct c as [items|]; [|reflexivity].
  match goal with
  | |- match ?loop items [] ?b with _ => _ end = _ =>
    enough (Hloop : forall children b',
               loop items children b'
               = convertChildren resource items children b')
      by now rewrite Hloop
  end.
  induction items as [|child items IH]; intros children b'; [reflexivity|].
  simpl. destruct (convertNavTree resource children child) as [[cs inc]|];
    [apply IH|reflexivity].
Qed.

(** The span is read before anything else and whether or not the node is
    kept: without a span the call fails. *)
Lemma convertNavTree_no_span resource bucket item :
  spans item = [] -> convertNavTree resource bucket item = Throws.
Proof. intros Hs. rewrite convertNavTree_eq, Hs. reflexivity. Qed.

(** The symbol is built before the filter is consulted: with an empty label
    the call fails, whether or not the node would be kept. *)
Lemma convertNavTree_no_label resource bucket item :
  text item = "" -> convertNavTree resource bucket item = Throws.
Proof.
  intros Ht. rewrite convertNavTree_eq, Ht.
  destruct (spans item !! 0%nat); reflexivity.
Qed.

(** *** The conversion in closed form *)

Lemma convertChildren_emitted resource items :
  Forall (fun child =>
            convertible child = true ->
            forall bucket,
              convertNavTree resource bucket child
              = Returns (bucket ++ emitted child, qualifies_within child))
         items ->
  forallb convertible items = true ->
  forall children shouldInclude,
    convertChildren resource items children shouldInclude
    = Returns (children ++ flat_map emitted items,
               shouldInclude || existsb qualifies_within items).
Proof.
  induction 1 as [|child items Hchild _ IH]; intros Hwf children b; simpl.
  - now rewrite app_nil_r, orb_false_r.
  - simpl in Hwf. apply andb_true_iff in Hwf as [Hc Hitems].
    rewrite (Hchild Hc). rewrite (IH Hitems).
    now rewrite app_assoc, orb_assoc.
Qed.

Lemma convertNavTree_emitted resource item :
  convertible item = true ->
  forall bucket,
    convertNavTree resource bucket item
    = Returns (bucket ++ emitted item, qualifies_within item).
Proof.
  induction item as [item IH] using NavigationTree_ind.
  intros Hwf bucket.
  apply convertible_inv in Hwf as (Hs & Hl & Hcs).
  rewrite convertNavTree_eq, emitted_eq, (qualifies_within_eq item).
  unfold has_span in Hs. unfold has_label in Hl. unfold childrenOf in *.
  destruct (spans item) as [|span0 rest]; [discriminate|]. simpl.
  rewrite Hl.
  destruct (childItems item) as [items|].
  - rewrite (convertChildren_emitted resource items IH Hcs). simpl.
    destruct (shouldInclueEntry item || existsb qualifies_within items);
      [reflexivity|now rewrite app_nil_r].
  - simpl. rewrite orb_false_r.
    destruct (shouldInclueEntry item); [reflexivity|now rewrite app_nil_r].
Qed.

Lemma forEach_convertNavTree_emitted resource items :
  forallb convertible items = true ->
  forall result,
    forEach_convertNavTree resource items result
    = Returns (result ++ flat_map emitted items).
Proof.
  induction items as [|item items IH]; intros Hwf result; simpl.
  - now rewrite app_nil_r.
  - simpl in Hwf. apply andb_true_iff in Hwf as [Hi Hitems].
    rewrite (convertNavTree_emitted resource item Hi).
    rewrite (IH Hitems). now rewrite app_assoc.
Qed.
(** *** The filtering rule *)

(** C6: [shouldInclueEntry] holds exactly when the kind is not the alias
    kind and the label is neither empty nor one of the two placeholder
    labels; it fails exactly when the kind is the alias kind or the label
    is empty or one of the placeholders. *)
Theorem shouldInclueEntry_iff item :
  (shouldInclueEntry item = true
   <-> kind item <> Kind_alias /\ text item <> ""
       /\ text item <> "<function>" /\ text item <> "<class>")
  /\ (shouldInclueEntry item = false
      <-> kind item = Kind_alias \/ text item = ""
          \/ text item = "<function>" \/ text item = "<class>").
Proof.
  unfold shouldInclueEntry, truthy_string.
  destruct (String.eqb_spec (kind item) Kind_alias) as [Hk|Hk];
  destruct (String.eqb_spec (text item) "") as [Ht|Ht];
  destruct (String.eqb_spec (text item) "<function>") as [Hf|Hf];
  destruct (String.eqb_spec (text item) "<class>") as [Hc|Hc];
  simpl; (split; split; [try discriminate|..]); intuition congruence.
Qed.

(** *** Nodes that are kept *)

Lemma names_within_eq (s : DocumentSymbol) :
  names_within s = name s :: flat_map names_within (children s).
Proof.
  destruct s as [n d k r sr cs]. reflexivity.
Qed.

Lemma qualifies_within_intro item d :
  d ∈ nodes item -> shouldInclueEntry d = true -> qualifies_within item = true.
Proof.
  intros Hd Hq. unfold qualifies_within. apply existsb_exists.
  exists d. split; [now apply list_elem_of_In|assumption].
Qed.

(** Every qualifying node of a tree has its label among the names that
    the conversion of the tree emits. *)
Lemma qualifying_node_emitted item :
  convertible item = true ->
  forall d, d ∈ nodes item -> shouldInclueEntry d = true ->
  text d ∈ flat_map names_within (emitted item).
Proof.
  induction item as [item IH] using NavigationTree_ind.
  intros Hwf d Hd Hq.
  pose proof (qualifies_within_intro item d Hd Hq) as Hkeep.
  apply convertible_inv in Hwf as (Hs & _ & Hcs).
  rewrite emitted_eq, Hkeep. unfold has_span in Hs.
  destruct (spans item) as [|span0 rest]; [discriminate|].
  cbn [flat_map]. rewrite app_nil_r, names_within_eq. cbn [name children].
  rewrite nodes_eq in Hd. apply elem_of_cons in Hd as [->|Hd].
  { apply elem_of_cons. now left. }
  apply elem_of_cons. right.
  apply list_elem_of_In, in_flat_map in Hd as (c & Hc & Hdc).
  apply list_elem_of_In in Hc, Hdc.
  rewrite Forall_forall in IH.
  assert (Hwfc : convertible c = true).
  { rewrite forallb_forall in Hcs. apply Hcs. now apply list_elem_of_In. }
  pose proof (IH c Hc Hwfc d Hdc Hq) as Hin.
  apply list_elem_of_In, in_flat_map in Hin as (sym & Hsym & Hname).
  apply list_elem_of_In, in_flat_map. exists sym. split; [|assumption].
  apply in_flat_map. exists c. split; [now apply list_elem_of_In|assumption].
Qed.

(** The same for the nodes below a node: their labels are among the names
    that the child items emit. *)
Lemma qualifying_descendants_below item :
  convertible item = true ->
  forall d, d ∈ descendants item -> shouldInclueEntry d = true ->
  text d ∈ flat_map names_within (flat_map emitted (childrenOf item)).
Proof.
  intros Hwf d Hd Hq. apply convertible_inv in Hwf as (_ & _ & Hcs).
  rewrite descendants_eq in Hd.
  apply list_elem_of_In, in_flat_map in Hd as (c & Hc & Hdc).
  apply list_elem_of_In, in_flat_map.
  rewrite forallb_forall in Hcs.
  pose proof (qualifying_node_emitted c (Hcs c Hc) d
                (proj2 (list_elem_of_In _ _) Hdc) Hq) as Hin.
  apply list_elem_of_In, in_flat_map in Hin as (sym & Hsym & Hname).
  exists sym. split; [|assumption].
  apply in_flat_map. exists c. split; assumption.
Qed.

(** The symbol of a kept node. *)
Lemma emitted_kept item :
  convertible item = true ->
  qualifies_within item = true ->
  exists symbolInfo,
    emitted item = [symbolInfo]
    /\ name symbolInfo = text item
    /\ children symbolInfo = flat_map emitted (childrenOf item).
Proof.
  intros Hwf Hkeep. apply convertible_inv in Hwf as (Hs & _ & _).
  rewrite emitted_eq, Hkeep. unfold has_span in Hs.
  destruct (spans item) as [|span0 rest]; [discriminate|].
  eexists. repeat split.
Qed.

(** C1, as amended: in a tree all of whose nodes carry a span and a
    non-empty label, a node that the filtering rule excludes and that has
    a qualifying descendant is itself emitted, as one symbol under its own
    label appended to the bucket of its parent; its children list is what
    its own child items emit, and every qualifying descendant is found
    inside that list.  Nothing is re-parented. *)
Theorem excluded_node_with_qualifying_descendant_is_kept
    resource bucket item :
  convertible item = true ->
  shouldInclueEntry item = false ->
  (exists d, d ∈ descendants item /\ shouldInclueEntry d = true) ->
  exists symbolInfo,
    convertNavTree resource bucket item
    = Returns (bucket ++ [symbolInfo], true)
    /\ name symbolInfo = text item
    /\ children symbolInfo = flat_map emitted (childrenOf item)
    /\ forall d, d ∈ descendants item -> shouldInclueEntry d = true ->
         text d ∈ flat_map names_within (children symbolInfo).
Proof.
  intros Hwf Hexcl (d0 & Hd0 & Hq0).
  assert (Hkeep : qualifies_within item = true).
  { apply (qualifies_within_intro item d0); [|assumption].
    unfold nodes. apply elem_of_cons. now right. }
  rewrite (convertNavTree_emitted resource item Hwf), Hkeep.
  destruct (emitted_kept item Hwf Hkeep) as (symbolInfo & -> & Hname & Hch).
  exists symbolInfo. split; [reflexivity|]. split; [assumption|].
  split; [assumption|]. rewrite Hch.
  now apply qualifying_descendants_below.
Qed.

(** A node is dropped only when nothing in its subtree qualifies, and then
    nothing of the subtree reaches the bucket. *)
Lemma dropped_node_drops_subtree resource bucket item :
  convertible item = true ->
  qualifies_within item = false ->
  convertNavTree resource bucket item = Returns (bucket, false).
Proof.
  intros Hwf Hq. rewrite (convertNavTree_emitted resource item Hwf), Hq.
  rewrite emitted_eq, Hq. destruct (spans item); now rewrite app_nil_r.
Qed.

(** C2, as amended: in a tree all of whose nodes carry a span and a
    non-empty label, a node of the alias kind is left out of the output
    exactly when none of its descendants qualifies; when one does, the
    alias node is emitted under its own label, its children list is what
    its own child items emit, and every qualifying descendant is found
    inside that list. *)
Theorem alias_node_excluded_iff_no_descendant_qualifies
    resource bucket item :
  convertible item = true ->
  kind item = Kind_alias ->
  let below := existsb shouldInclueEntry (descendants item) in
  exists out,
    convertNavTree resource bucket item = Returns (out, below)
    /\ (below = false -> out = bucket)
    /\ (below = true ->
        exists symbolInfo,
          out = bucket ++ [symbolInfo]
          /\ name symbolInfo = text item
          /\ children symbolInfo = flat_map emitted (childrenOf item)
          /\ forall d,
               d ∈ descendants item -> shouldInclueEntry d = true ->
               text d ∈ flat_map names_within (children symbolInfo)).
Proof.
  intros Hwf Hk below.
  assert (Hq : qualifies_within item = below).
  { unfold qualifies_within, nodes. simpl.
    unfold shouldInclueEntry at 1. rewrite Hk, String.eqb_refl. reflexivity. }
  rewrite (convertNavTree_emitted resource item Hwf), Hq.
  eexists. split; [reflexivity|].
  split; intros Hb; rewrite Hb in Hq.
  - rewrite emitted_eq, Hq. destruct (spans item); apply app_nil_r.
  - destruct (emitted_kept item Hwf Hq) as (symbolInfo & -> & Hname & Hch).
    exists symbolInfo. split; [reflexivity|]. split; [assumption|].
    split; [assumption|]. rewrite Hch.
    now apply qualifying_descendants_below.
Qed.
(** *** Failures of the remote call *)

(** In each of the situations of [no_result_case] (the resource has no
    path, the remote call is rejected or cancelled, the response has no
    body, the tree has no [childItems]) the promise of
    [provideDocumentSymbols] is fulfilled with [undefined]; nothing is
    thrown. *)
Lemma provideDocumentSymbols_no_result client (document : TextDocument)
    token :
  no_result_case client document token ->
  provideDocumentSymbols client document token = Returns None.
Proof.
  intros Hcase. unfold provideDocumentSymbols.
  destruct Hcase as [Hp|Hp|file Hp Hcall|file Hp Hcall|file tree Hp Hcall Hc];
    rewrite Hp; try reflexivity;
    destruct (truthy_string file); simpl; try reflexivity;
    rewrite Hcall; simpl; try reflexivity.
  now rewrite Hc.
Qed.

(** Past those situations the conversion runs outside the [try] block; it
    returns the symbols of the child items whenever every node below the
    root carries a span and a non-empty label. *)
Lemma provideDocumentSymbols_result client (document : TextDocument) token
    file tree items :
  toPath client (uri document) = Some file ->
  truthy_string file = true ->
  execute client "navtree" (mkFileRequestArgs file) token
  = Returns (mkResponse (Some tree)) ->
  childItems tree = Some items ->
  forallb convertible items = true ->
  provideDocumentSymbols client document token
  = Returns (Some (flat_map emitted items)).
Proof.
  intros Hp Hf Hcall Hc Hwf. unfold provideDocumentSymbols.
  rewrite Hp, Hf, Hcall. simpl. rewrite Hc.
  now rewrite (forEach_convertNavTree_emitted _ items Hwf).
Qed.

(** C5, as amended: a failure of the remote call is never propagated and
    each of the situations of [no_result_case] is answered with
    [undefined]; and whenever every node below the root of the answer has
    a span and a non-empty label, the promise is fulfilled, not rejected. *)
Theorem provideDocumentSymbols_never_throws client
    (document : TextDocument) token :
  (no_result_case client document token ->
   provideDocumentSymbols client document token = Returns None)
  /\ (response_convertible client document token ->
      exists result,
        provideDocumentSymbols client document token = Returns result).
Proof.
  split; [apply provideDocumentSymbols_no_result|].
  intros Hwf. unfold provideDocumentSymbols.
  destruct (toPath client (uri document)) as [file|] eqn:Hp;
    [|now exists None].
  destruct (truthy_string file); cbn [negb]; [|now exists None].
  destruct (execute client "navtree" (mkFileRequestArgs file) token)
    as [[[tree|]]|] eqn:Hcall; cbn [body]; try (now exists None).
  destruct (childItems tree) as [items|] eqn:Hc; [|now exists None].
  rewrite (forEach_convertNavTree_emitted _ items
             (Hwf file tree items Hp Hcall Hc)).
  now eexists.
Qed.

(** *** The span that is read *)

Lemma first_span_only_eq item :
  first_span_only item
  = mkNavigationTree (text item) (kind item) (take 1 (spans item))
      (match childItems item with
       | Some items => Some (map first_span_only items)
       | None => None
       end).
Proof. destruct item as [t k s [items|]]; reflexivity. Qed.

Lemma lookup_take_first {A : Type} (l : list A) :
  take 1 l !! 0%nat = l !! 0%nat.
Proof. destruct l; reflexivity. Qed.

Lemma convertChildren_first_span_only resource items :
  Forall (fun child =>
            forall bucket,
              convertNavTree resource bucket (first_span_only child)
              = convertNavTree resource bucket child)
         items ->
  forall children shouldInclude,
    convertChildren resource (map first_span_only items) children shouldInclude
    = convertChildren resource items children shouldInclude.
Proof.
  induction 1 as [|child items Hchild _ IH]; intros children b;
    [reflexivity|].
  simpl. rewrite Hchild.
  destruct (convertNavTree resource children child) as [[cs inc]|];
    [apply IH|reflexivity].
Qed.

(** The conversion does not see any span but the first of each node. *)
Lemma convertNavTree_first_span_only resource item :
  forall bucket,
    convertNavTree resource bucket (first_span_only item)
    = convertNavTree resource bucket item.
Proof.
  induction item as [item IH] using NavigationTree_ind. intros bucket.
  rewrite (convertNavTree_eq resource bucket item).
  rewrite first_span_only_eq, convertNavTree_eq.
  unfold shouldInclueEntry. cbn [text kind spans childItems].
  rewrite lookup_take_first.
  destruct (spans item !! 0%nat) as [span0|]; [|reflexivity].
  destruct (truthy_string (text item)); [|reflexivity].
  unfold childrenOf in IH.
  destruct (childItems item) as [items|]; [|reflexivity].
  now rewrite (convertChildren_first_span_only resource items IH).
Qed.

Lemma all_have_span_nodes item :
  all_have_span item = true ->
  Forall (fun n => exists span0, spans n !! 0%nat = Some span0) (nodes item).
Proof.
  unfold all_have_span. rewrite forallb_forall, Forall_forall.
  intros Hall n Hn. apply list_elem_of_In in Hn.
  specialize (Hall n Hn). unfold has_span in Hall.
  destruct (spans n) as [|span0 rest]; [discriminate|]. now exists span0.
Qed.

(** C9: in a tree all of whose nodes carry a span, the read of [spans[0]]
    is in bounds at every node; the conversion is the same when every span
    but the first is removed from every node; and, the labels being
    non-empty so that the symbols can be built, the symbol built for a
    node has the range of that first span both as its range and as its
    selection range. *)
Theorem convertNavTree_reads_first_span resource bucket item :
  all_have_span item = true ->
  Forall (fun n => exists span0, spans n !! 0%nat = Some span0) (nodes item)
  /\ convertNavTree resource bucket (first_span_only item)
     = convertNavTree resource bucket item
  /\ (all_have_label item = true ->
      exists span0 children_,
        spans item !! 0%nat = Some span0
        /\ convertNavTree resource bucket item
           = Returns
               (if qualifies_within item
                then push bucket
                       (mkDocumentSymbol (text item) ""
                          (getSymbolKind (kind item))
                          (fromTextSpan span0) (fromTextSpan span0) children_)
                else bucket,
                qualifies_within item)).
Proof.
  intros Hspans. split; [now apply all_have_span_nodes|].
  split; [apply convertNavTree_first_span_only|].
  intros Hlabels.
  assert (Hwf : convertible item = true)
    by now rewrite convertible_split, Hspans, Hlabels.
  rewrite (convertNavTree_emitted resource item Hwf), emitted_eq.
  apply convertible_inv in Hwf as (Hs & _ & _). unfold has_span in Hs.
  destruct (spans item) as [|span0 rest]; [discriminate|].
  exists span0, (flat_map emitted (childrenOf item)).
  split; [reflexivity|].
  destruct (qualifies_within item); [reflexivity|now rewrite app_nil_r].
Qed.
End DocumentSymbolsFacts.

Section Closed.
Local Existing Instance sampleHost.

Lemma excluded_node_with_qualifying_descendant_is_kept_witness :
  exists symbolInfo,
    @convertNavTree sampleHost "/a.ts" []
      (sample_node "<function>" "function" (4, 36)
         [sample_leaf "x" "var" (20, 21)])
    = Returns ([] ++ [symbolInfo], true)
    /\ name symbolInfo = "<function>".
Proof.
  destruct (excluded_node_with_qualifying_descendant_is_kept
              ("/a.ts" : @Uri sampleHost) []
              (sample_node "<function>" "function" (4, 36)
                 [sample_leaf "x" "var" (20, 21)]))
    as (symbolInfo & Hconv & Hname & _).
  - reflexivity.
  - reflexivity.
  - exists (sample_leaf "x" "var" (20, 21)). split; [|reflexivity].
    simpl. apply list_elem_of_singleton. reflexivity.
  - exists symbolInfo. split; assumption.
Defined.

(** C1, as stated, fails: for a file whose only child is a [function]
    labelled ["<function>"] with a [var] child labelled ["x"], the provider
    answers with the ["<function>"] symbol at the top and ["x"] below it;
    the excluded node is not dropped and ["x"] is not hoisted into the
    list of the surviving ancestor. *)
Lemma excluded_node_is_not_dropped :
  let f := sample_node "<function>" "function" (4, 36)
             [sample_leaf "x" "var" (20, 21)] in
  shouldInclueEntry f = false
  /\ shouldInclueEntry (sample_leaf "x" "var" (20, 21)) = true
  /\ exists result,
       provideDocumentSymbols (sample_client sample_function_tree)
         sample_document tt
       = Returns (Some result)
       /\ result
          = [mkDocumentSymbol "<function>" "" SymbolKind_Function
               (4, 36) (4, 36)
               [mkDocumentSymbol "x" "" SymbolKind_Variable
                  (20, 21) (20, 21) []]]
       /\ In "<function>" (map name result)
       /\ ~ In "x" (map name result).
Proof.
  split; [reflexivity|]. split; [reflexivity|].
  eexists. split; [reflexivity|]. split; [reflexivity|].
  split; [now left|]. intros [Hx|[]]. discriminate Hx.
Qed.

Lemma alias_node_excluded_iff_no_descendant_qualifies_witness :
  exists out symbolInfo,
    @convertNavTree sampleHost "/a.ts" []
      (sample_node "fs" "alias" (7, 9) [sample_leaf "x" "var" (20, 21)])
    = Returns (out, true)
    /\ out = [] ++ [symbolInfo]
    /\ name symbolInfo = "fs"
    /\ "x" ∈ flat_map names_within (children symbolInfo).
Proof.
  destruct (alias_node_excluded_iff_no_descendant_qualifies
              ("/a.ts" : @Uri sampleHost) []
              (sample_node "fs" "alias" (7, 9)
                 [sample_leaf "x" "var" (20, 21)]))
    as (out & Hconv & _ & Hkept).
  - reflexivity.
  - reflexivity.
  - destruct (Hkept eq_refl) as (symbolInfo & Hout & Hname & _ & Hbelow).
    exists out, symbolInfo. split; [exact Hconv|]. split; [exact Hout|].
    split; [exact Hname|].
    apply (Hbelow (sample_leaf "x" "var" (20, 21))); [|reflexivity].
    simpl. apply list_elem_of_singleton. reflexivity.
Defined.

(** C2, as stated, fails: an alias node with a qualifying child is in the
    output, its child below it. *)
Lemma alias_node_with_qualifying_child_is_kept :
  kind (sample_node "fs" "alias" (7, 9) [sample_leaf "x" "var" (20, 21)])
  = Kind_alias
  /\ exists result,
       provideDocumentSymbols (sample_client sample_alias_tree)
         sample_document tt
       = Returns (Some result)
       /\ result
          = [mkDocumentSymbol "fs" "" SymbolKind_Variable (7, 9) (7, 9)
               [mkDocumentSymbol "x" "" SymbolKind_Variable
                  (20, 21) (20, 21) []]]
       /\ In "fs" (map name result).
Proof.
  split; [reflexivity|].
  eexists. split; [reflexivity|]. split; [reflexivity|]. now left.
Qed.

Lemma provideDocumentSymbols_never_throws_witness :
  (no_result_case rejecting_client sample_document tt
   /\ provideDocumentSymbols rejecting_client sample_document tt
      = Returns None)
  /\ (response_convertible (sample_client sample_function_tree)
        sample_document tt
      /\ exists result,
           provideDocumentSymbols (sample_client sample_function_tree)
             sample_document tt
           = Returns result).
Proof.
  assert (Hcase : no_result_case rejecting_client sample_document tt).
  { apply (call_rejected _ _ _ "/a.ts"); reflexivity. }
  assert (Hwf : response_convertible (sample_client sample_function_tree)
                  sample_document tt).
  { intros file tree items _ Hcall Hc. simpl in Hcall.
    injection Hcall as <-. simpl in Hc. injection Hc as <-. reflexivity. }
  split.
  - split; [exact Hcase|].
    exact (proj1 (provideDocumentSymbols_never_throws rejecting_client
                    sample_document tt) Hcase).
  - split; [exact Hwf|].
    exact (proj2 (provideDocumentSymbols_never_throws
                    (sample_client sample_function_tree) sample_document tt)
             Hwf).
Defined.

(** C5, as stated, fails: the conversion runs after the [try] block, and
    the promise is rejected when a node below the root has no label or no
    span; and a tree with an empty array of child items is answered with
    the empty array, not with [undefined]. *)
Lemma provideDocumentSymbols_rejects_in_conversion :
  provideDocumentSymbols (sample_client sample_unlabelled_tree)
    sample_document tt
  = Throws
  /\ provideDocumentSymbols (sample_client sample_spanless_tree)
       sample_document tt
     = Throws
  /\ provideDocumentSymbols
       (sample_client (sample_node "<global>" "script" (0, 0) []))
       sample_document tt
     = Returns (Some [])
  /\ Returns (Some []) <> Returns (@None (list DocumentSymbol)).
Proof. repeat split. discriminate. Qed.

(** An empty array of child items is not the absence of child items: the
    answer is then the empty array. *)
Lemma provideDocumentSymbols_empty_childItems :
  provideDocumentSymbols
    (sample_client (sample_node "<global>" "script" (0, 0) []))
    sample_document tt
  = Returns (Some []).
Proof. reflexivity. Qed.

Lemma convertNavTree_reads_first_span_witness :
  let item :=
    @mkNavigationTree sampleHost "x" "var" [(20, 21); (30, 31)] None in
  all_have_span item = true
  /\ @convertNavTree sampleHost "/a.ts" [] (first_span_only item)
     = @convertNavTree sampleHost "/a.ts" [] item
  /\ exists span0 children_,
       spans item !! 0%nat = Some span0
       /\ @convertNavTree sampleHost "/a.ts" [] item
          = Returns ([mkDocumentSymbol "x" "" SymbolKind_Variable
                        span0 span0 children_], true).
Proof.
  intros item.
  destruct (convertNavTree_reads_first_span ("/a.ts" : @Uri sampleHost) []
              item eq_refl) as (_ & Hsame & Hrange).
  split; [reflexivity|]. split; [exact Hsame|].
  exact (Hrange eq_refl).
Defined.
End Closed.
End DocumentSymbolsFacts.

(** ** The quick-pick keybinding rules *)

Module QuickInputFacts.
Import JsArray QuickInput.
Section QuickInputFacts.
Context `{Platform}.
Implicit Types (primary : Z) (secondary : list Z) (options : Options).

(** Case analysis on the three flags and on the platform. *)
Ltac flags options :=
  unfold getSecondary, push;
  destruct (truthy (withAltMod options)) eqn:Halt;
  destruct (truthy (withCtrlMod options)) eqn:Hctrl;
  destruct (truthy (withCmdMod options)) eqn:Hcmd;
  destruct isMacintosh eqn:Hmac;
  cbn [andb].

(** [getSecondary] only pushes: its result is the given array followed by
    what it generates from the empty array. *)
Lemma getSecondary_app primary secondary options :
  getSecondary primary secondary options
  = secondary ++ getSecondary primary [] options.
Proof.
  flags options; cbn [app]; rewrite <- ?app_assoc; cbn [app];
    try reflexivity; now rewrite app_nil_r.
Qed.

(** With the default [options], [{}], nothing is generated. *)
Lemma getSecondary_no_options primary secondary :
  getSecondary primary secondary no_options = secondary.
Proof. reflexivity. Qed.

(** C10: the array that [getSecondary] returns has the given chords as a
    prefix, unchanged and in their order; the generated chords are the
    same whatever was given, and they come after. *)
Theorem getSecondary_keeps_given_chords primary secondary options :
  exists generated,
    getSecondary primary secondary options = secondary ++ generated
    /\ generated = getSecondary primary [] options.
Proof.
  exists (getSecondary primary [] options).
  split; [apply getSecondary_app|reflexivity].
Qed.

(** The same for a registered rule: its explicit secondary chords stay in
    front. *)
Lemma registered_rule_keeps_given_chords (rule : Rule) options :
  secondary (registerQuickPickCommandAndKeybindingRule rule options)
  = Some (default [] (secondary rule)
          ++ getSecondary (primary rule) [] options).
Proof.
  unfold registerQuickPickCommandAndKeybindingRule. cbn [QuickInput.secondary].
  now rewrite getSecondary_app.
Qed.

(** C7: off the Macintosh, with the three flags set and no chord given,
    [getSecondary] returns the three chords alt, ctrl and alt+ctrl of the
    primary chord, and nothing for the command modifier. *)
Theorem getSecondary_all_options_off_mac primary :
  isMacintosh = false ->
  getSecondary primary [] all_options
  = [KeyMod_Alt + primary;
     KeyMod_CtrlCmd + primary;
     KeyMod_Alt + KeyMod_CtrlCmd + primary].
Proof.
  intros Hmac. unfold getSecondary, all_options, push. simpl.
  rewrite Hmac. reflexivity.
Qed.

(** C8: what [getSecondary] adds for a primary chord is a function of the
    chord, the flags and the platform: the chords of the combinations of
    the specification's enumeration, in its order, each one present
    exactly when all the flags of its modifiers are set and, if it bears
    the command modifier, the platform is the Macintosh. *)
Theorem getSecondary_enumeration primary secondary options :
  getSecondary primary secondary options
  = secondary ++ map (spec_chord primary) (spec_combinations options).
Proof.
  rewrite getSecondary_app. f_equal.
  unfold spec_combinations, spec_enumeration, spec_generated, spec_chord,
    spec_modifier_bits.
  flags options; cbn; rewrite ?Halt, ?Hctrl, ?Hcmd, ?Hmac; cbn;
    repeat (f_equal; try lia).
Qed.

(** Off the Macintosh no generated combination bears the command
    modifier. *)
Lemma no_cmd_combination_off_mac options :
  isMacintosh = false ->
  Forall (fun c => bears_cmd c = false) (spec_combinations options).
Proof.
  intros Hmac. unfold spec_combinations. apply Forall_forall.
  intros c Hc. apply list_elem_of_In, filter_In in Hc as [_ Hgen].
  unfold spec_generated in Hgen. rewrite Hmac, orb_false_r in Hgen.
  apply andb_true_iff in Hgen as [_ Hcmd].
  now apply negb_true_iff in Hcmd.
Qed.
End QuickInputFacts.

Lemma getSecondary_all_options_off_mac_witness :
  @isMacintosh otherPlatform = false
  /\ @getSecondary otherPlatform 18 [] all_options = [530; 2066; 2578].
Proof.
  split; [reflexivity|].
  exact (@getSecondary_all_options_off_mac otherPlatform 18 eq_refl).
Defined.

(** On the Macintosh the same call gives the seven chords. *)
Example getSecondary_all_options_on_mac :
  @getSecondary macPlatform 18 [] all_options
  = [530; 274; 786; 2066; 2322; 2578; 2834].
Proof. reflexivity. Qed.

(** The Macintosh rules for the next and the previous separator, registered
    with [{ withCtrlMod: true }], keep their fixed chord first. *)
Example mac_nextSeparator_registered :
  secondary
    (@registerQuickPickCommandAndKeybindingRule macPlatform
       (@mac_nextSeparator macPlatform) (mkOptions None (Some true) None))
  = Some [2048 + 256 + 18; 256 + (2048 + 512 + 18)].
Proof. reflexivity. Qed.

Example mac_previousSeparator_registered :
  secondary
    (@registerQuickPickCommandAndKeybindingRule macPlatform
       (@mac_previousSeparator macPlatform) (mkOptions None (Some true) None))
  = Some [2048 + 256 + 16; 256 + (2048 + 512 + 16)].
Proof. reflexivity. Qed.
End QuickInputFacts.

(** ** The theming registry in use *)

Module ThemingUseFacts.
Import JsArray JsArrayFacts Theming ThemingFacts ThemingUse.
Section ThemingUseFacts.
Context {P : Type} `{EqDecision P}.
Implicit Types (p q : P) (l : list P) (reg : ThemingRegistry P).

Lemma register_all_eq (ps : list P) reg :
  register_all ps reg
  = (mkThemingRegistry (themingParticipants reg ++ ps),
     map (fun p => mkDisposable (dispose_body p)) ps).
Proof.
  revert reg. induction ps as [|p ps IH]; intros [l]; simpl.
  - now rewrite app_nil_r.
  - rewrite IH. simpl. unfold push. now rewrite <- app_assoc.
Qed.

(** X1: participants come back in the order of their registration, after the
    ones that were there. *)
Theorem registration_order (ps : list P) reg :
  getThemingParticipants (fst (register_all ps reg))
  = getThemingParticipants reg ++ ps.
Proof.
  revert reg. induction ps as [|p ps IH]; intros reg.
  - simpl. now rewrite app_nil_r.
  - cbn [register_all]. unfold registerThemingParticipant.
    destruct (onThemeChange p reg) as [reg1 handle] eqn:Hreg.
    specialize (IH reg1).
    destruct (register_all ps reg1) as [reg2 handles]. cbn [fst] in *.
    rewrite IH.
    assert (Hreg1 : getThemingParticipants reg1
                    = getThemingParticipants reg ++ [p]).
    { unfold onThemeChange in Hreg. injection Hreg as <- _. reflexivity. }
    rewrite Hreg1, <- app_assoc. reflexivity.
Qed.

(** X2: a call of [dispose] on a non-empty list deletes exactly one element,
    whether or not the participant of the handle is still in the list; on
    the empty list it deletes nothing. *)
Theorem dispose_shrinks_by_one p reg0 reg :
  length (getThemingParticipants (dispose (snd (onThemeChange p reg0)) reg))
  = Nat.pred (length (getThemingParticipants reg)).
Proof.
  destruct reg as [l]. unfold getThemingParticipants, onThemeChange.
  cbn [snd dispose themingParticipants].
  destruct (decide (p ∈ l)) as [Hin|Hnin].
  - destruct (first_occurrence l p Hin) as (l1 & l2 & -> & Hl1).
    rewrite dispose_body_present by assumption. cbn [themingParticipants].
    rewrite !length_app. simpl. lia.
  - destruct l as [|x l] using rev_ind; [reflexivity|].
    rewrite dispose_body_absent by assumption. cbn [themingParticipants].
    rewrite length_app. simpl. lia.
Qed.

(** X3: while the participant is in the list, in whatever state the registry
    is by then, [dispose] deletes its first occurrence and leaves every
    other participant where it was. *)
Theorem dispose_removes_first_occurrence p reg0 reg :
  p ∈ getThemingParticipants reg ->
  exists l1 l2,
    getThemingParticipants reg = l1 ++ p :: l2
    /\ (p ∉ l1)
    /\ getThemingParticipants (dispose (snd (onThemeChange p reg0)) reg)
       = l1 ++ l2.
Proof.
  destruct reg as [l]. unfold getThemingParticipants, onThemeChange.
  cbn [snd dispose themingParticipants]. intros Hin.
  destruct (first_occurrence l p Hin) as (l1 & l2 & -> & Hl1).
  exists l1, l2. split; [reflexivity|]. split; [assumption|].
  now rewrite dispose_body_present.
Qed.

(** X5: registration followed at once by disposal keeps the participants, up
    to their order, in every state of the registry. *)
Theorem register_then_dispose_permutation p reg :
  Permutation
    (getThemingParticipants
       (dispose (snd (onThemeChange p reg)) (fst (onThemeChange p reg))))
    (getThemingParticipants reg).
Proof.
  destruct reg as [l].
  destruct (decide (p ∈ l)) as [Hin|Hnin].
  - destruct (first_occurrence l p Hin) as (l1 & l2 & -> & Hl1).
    rewrite register_dispose_moves_first_occurrence by assumption.
    unfold getThemingParticipants. cbn [themingParticipants].
    apply Permutation_app_head. symmetry. apply Permutation_cons_append.
  - unfold getThemingParticipants, onThemeChange, push.
    cbn [fst snd dispose themingParticipants].
    rewrite dispose_body_present by assumption.
    cbn [themingParticipants]. now rewrite app_nil_r.
Qed.

(** X4: once the participant of a handle is gone, [dispose] deletes the last
    participant of the list instead, whichever it is. *)
Theorem dispose_of_absent_removes_last p q l reg0 :
  p ∉ l ++ [q] ->
  getThemingParticipants
    (dispose (snd (onThemeChange p reg0)) (mkThemingRegistry (l ++ [q])))
  = l.
Proof.
  intros Hnin. unfold getThemingParticipants, onThemeChange.
  cbn [snd dispose]. now rewrite dispose_body_absent.
Qed.

Lemma remove_first_app p l1 l2 :
  p ∉ l1 -> remove_first p (l1 ++ p :: l2) = l1 ++ l2.
Proof.
  induction l1 as [|x l1 IH]; intros Hp; simpl.
  - destruct (decide (p = p)); [reflexivity|contradiction].
  - apply not_elem_of_cons in Hp as [Hne Hp].
    destruct (decide (x = p)) as [->|_]; [contradiction|].
    now rewrite IH.
Qed.

Lemma dispose_body_remove_first p l :
  p ∈ l ->
  dispose_body p (mkThemingRegistry l) = mkThemingRegistry (remove_first p l).
Proof.
  intros Hp. destruct (first_occurrence l p Hp) as (l1 & l2 & -> & Hl1).
  now rewrite dispose_body_present, remove_first_app.
Qed.

Lemma remove_first_comm p q l :
  remove_first p (remove_first q l) = remove_first q (remove_first p l).
Proof.
  induction l as [|x l IH]; [reflexivity|]. simpl.
  destruct (decide (x = q)) as [Hq|Hq], (decide (x = p)) as [Hp|Hp]; simpl.
  - congruence.
  - destruct (decide (x = q)); [reflexivity|contradiction].
  - destruct (decide (x = p)); [reflexivity|contradiction].
  - destruct (decide (x = p)), (decide (x = q)); try contradiction.
    now rewrite IH.
Qed.

Lemma elem_of_remove_first_ne p q l :
  p <> q -> q ∈ l -> q ∈ remove_first p l.
Proof.
  intros Hne. induction l as [|x l IH]; intros Hq; simpl;
    [now apply elem_of_nil in Hq|].
  apply elem_of_cons in Hq as [->|Hq].
  - destruct (decide (x = p)) as [->|_]; [congruence|].
    apply elem_of_cons. now left.
  - destruct (decide (x = p)); [assumption|].
    apply elem_of_cons. right. now apply IH.
Qed.

(** X6: the handles of two different participants that are both in the list
    can be disposed of in either order. *)
Theorem disposals_commute p q reg1 reg2 reg :
  p <> q ->
  p ∈ getThemingParticipants reg ->
  q ∈ getThemingParticipants reg ->
  let handle_p := snd (onThemeChange p reg1) in
  let handle_q := snd (onThemeChange q reg2) in
  dispose handle_p (dispose handle_q reg)
  = dispose handle_q (dispose handle_p reg).
Proof.
  destruct reg as [l]. unfold getThemingParticipants, onThemeChange.
  cbn [snd dispose themingParticipants]. intros Hne Hp Hq. cbn zeta.
  rewrite (dispose_body_remove_first q l Hq).
  rewrite (dispose_body_remove_first p l Hp).
  rewrite dispose_body_remove_first by now apply elem_of_remove_first_ne.
  rewrite dispose_body_remove_first
    by (apply elem_of_remove_first_ne; [congruence|assumption]).
  now rewrite remove_first_comm.
Qed.

Lemma dispose_all_fresh (qs ps : list P) l0 :
  Forall (fun p => p ∉ l0) ps ->
  Permutation qs ps ->
  dispose_all (map (fun p => mkDisposable (dispose_body p)) qs)
    (mkThemingRegistry (l0 ++ ps))
  = mkThemingRegistry l0.
Proof.
  revert ps. induction qs as [|q qs IH]; intros ps Hfresh Hperm.
  - apply Permutation.Permutation_nil in Hperm. subst ps.
    unfold dispose_all. cbn [map fold_left]. now rewrite app_nil_r.
  - assert (Hq : q ∈ ps) by (rewrite <- Hperm; apply elem_of_cons; now left).
    destruct (first_occurrence ps q Hq) as (ps1 & ps2 & -> & Hps1).
    assert (Hql0 : q ∉ l0).
    { rewrite Forall_forall in Hfresh. now apply Hfresh. }
    unfold dispose_all. cbn [map fold_left dispose].
    fold (dispose_all (map (fun p => mkDisposable (dispose_body p)) qs)).
    rewrite (app_assoc l0 ps1 (q :: ps2)).
    rewrite dispose_body_present
      by (apply not_elem_of_app; split; assumption).
    rewrite <- app_assoc. apply IH.
    + apply Forall_app in Hfresh as [H1 H2].
      apply Forall_cons in H2 as [_ H2]. apply Forall_app. now split.
    + apply (Permutation_cons_inv (a := q)).
      rewrite Hperm. symmetry. apply Permutation_middle.
Qed.

(** X7: after registering participants none of which was registered before,
    disposing of every handle once, in any order, gives back the registry
    of before the registrations. *)
Theorem dispose_every_handle_once (ps : list P) reg
    (handles : list (IDisposable P)) :
  Forall (fun p => p ∉ getThemingParticipants reg) ps ->
  Permutation handles (snd (register_all ps reg)) ->
  dispose_all handles (fst (register_all ps reg)) = reg.
Proof.
  intros Hfresh Hperm. rewrite register_all_eq in *. cbn [fst snd] in *.
  apply Permutation_map_inv in Hperm as (qs & -> & Hqs).
  destruct reg as [l0]. cbn [themingParticipants].
  apply dispose_all_fresh; [assumption|now symmetry].
Qed.
End ThemingUseFacts.

Lemma dispose_removes_first_occurrence_witness :
  exists l1 l2,
    [1; 2; 1; 3]%nat = l1 ++ 2%nat :: l2
    /\ (2%nat ∉ l1)
    /\ getThemingParticipants
         (dispose (snd (onThemeChange 2%nat constructor))
            (mkThemingRegistry [1; 2; 1; 3]%nat))
       = l1 ++ l2.
Proof.
  apply (dispose_removes_first_occurrence 2%nat constructor
           (mkThemingRegistry [1; 2; 1; 3]%nat)).
  unfold getThemingParticipants. cbn [themingParticipants].
  apply elem_of_cons. right. apply elem_of_cons. now left.
Defined.

Lemma dispose_of_absent_removes_last_witness :
  getThemingParticipants
    (dispose (snd (onThemeChange 7%nat constructor))
       (mkThemingRegistry ([1; 2] ++ [3])%nat))
  = [1; 2]%nat.
Proof.
  apply (dispose_of_absent_removes_last 7%nat 3%nat [1; 2]%nat constructor).
  intros Hin.
  repeat (apply elem_of_cons in Hin as [Hin|Hin]; [discriminate|]).
  now apply elem_of_nil in Hin.
Defined.

Lemma disposals_commute_witness :
  dispose (snd (onThemeChange 1%nat constructor))
    (dispose (snd (onThemeChange 2%nat constructor))
       (mkThemingRegistry [2; 1; 2; 1]%nat))
  = dispose (snd (onThemeChange 2%nat constructor))
      (dispose (snd (onThemeChange 1%nat constructor))
         (mkThemingRegistry [2; 1; 2; 1]%nat)).
Proof.
  apply (disposals_commute 1%nat 2%nat constructor constructor
           (mkThemingRegistry [2; 1; 2; 1]%nat)).
  - discriminate.
  - unfold getThemingParticipants. cbn [themingParticipants].
    apply elem_of_cons. right. apply elem_of_cons. now left.
  - unfold getThemingParticipants. cbn [themingParticipants].
    apply elem_of_cons. now left.
Defined.

Lemma dispose_every_handle_once_witness :
  let reg := mkThemingRegistry [9]%nat in
  let handles := snd (register_all [1; 2; 3]%nat reg) in
  dispose_all (rev handles) (fst (register_all [1; 2; 3]%nat reg)) = reg.
Proof.
  intros reg handles.
  apply (dispose_every_handle_once [1; 2; 3]%nat reg (rev handles)).
  - unfold getThemingParticipants, reg. cbn [themingParticipants].
    repeat (apply Forall_cons; split;
            [intros Hin; apply list_elem_of_singleton in Hin; discriminate|]).
    apply Forall_nil_2.
  - symmetry. apply Permutation_rev.
Defined.
End ThemingUseFacts.

(** ** The document-symbol provider: kinds, failures, shape of the output *)

Module DocumentSymbolsUseFacts.
Import JsArray DocumentSymbols DocumentSymbolsFacts DocumentSymbolsUse.
Section DocumentSymbolsUseFacts.
Context `{Host}.
Implicit Types (item child : NavigationTree) (items : list NavigationTree).
Implicit Types (bucket : list DocumentSymbol) (resource : Uri).

(** *** [getSymbolKind] *)

(** X8: a kind string for which the [switch] has no case, the alias kind for
    one when it is not in the table, is shown as a variable. *)
Theorem getSymbolKind_default (kind_ : string) :
  kind_ ∉ known_kinds -> getSymbolKind kind_ = SymbolKind_Variable.
Proof.
  unfold known_kinds. rewrite !not_elem_of_cons.
  intros Hk. unfold getSymbolKind.
  repeat match goal with
         | |- context [String.eqb ?a ?b] =>
           destruct (String.eqb_spec a b) as [He|_];
             [exfalso; intuition congruence|]
         end.
  reflexivity.
Qed.

(** X9: when the kind strings of the table are pairwise different, each one
    is mapped to the symbol kind of its own case. *)
Theorem getSymbolKind_table :
  NoDup known_kinds ->
  getSymbolKind Kind_module = SymbolKind_Module
  /\ getSymbolKind Kind_class = SymbolKind_Class
  /\ getSymbolKind Kind_enum = SymbolKind_Enum
  /\ getSymbolKind Kind_interface = SymbolKind_Interface
  /\ getSymbolKind Kind_memberFunction = SymbolKind_Method
  /\ getSymbolKind Kind_memberVariable = SymbolKind_Property
  /\ getSymbolKind Kind_memberGetAccessor = SymbolKind_Property
  /\ getSymbolKind Kind_memberSetAccessor = SymbolKind_Property
  /\ getSymbolKind Kind_variable = SymbolKind_Variable
  /\ getSymbolKind Kind_const = SymbolKind_Variable
  /\ getSymbolKind Kind_localVariable = SymbolKind_Variable
  /\ getSymbolKind Kind_function = SymbolKind_Function
  /\ getSymbolKind Kind_localFunction = SymbolKind_Function.
Proof.
  unfold known_kinds. rewrite !NoDup_cons, !not_elem_of_cons.
  intros Hdistinct. unfold getSymbolKind.
  repeat split;
    repeat match goal with
           | |- context [String.eqb ?a ?b] =>
             destruct (String.eqb_spec a b);
               [first [reflexivity | exfalso; intuition congruence]
               |try congruence]
           end.
Qed.

(** *** When the conversion fails *)

Lemma convertChildren_throws resource items :
  Forall (fun child =>
            convertible child = false ->
            forall bucket, convertNavTree resource bucket child = Throws)
         items ->
  forallb convertible items = false ->
  forall children shouldInclude,
    convertChildren resource items children shouldInclude = Throws.
Proof.
  induction 1 as [|child items Hchild _ IH]; intros Hwf children b;
    [discriminate|].
  simpl in *. destruct (convertible child) eqn:Hc.
  - rewrite (convertNavTree_emitted resource child Hc). apply IH.
    exact Hwf.
  - now rewrite Hchild.
Qed.

Lemma convertNavTree_throws resource item :
  convertible item = false ->
  forall bucket, convertNavTree resource bucket item = Throws.
Proof.
  induction item as [item IH] using NavigationTree_ind.
  intros Hwf bucket. rewrite convertible_eq in Hwf.
  rewrite convertNavTree_eq. unfold has_span, has_label, childrenOf in *.
  destruct (spans item) as [|span0 rest]; [reflexivity|].
  cbn [lookup list_lookup].
  destruct (truthy_string (text item)); [|reflexivity].
  cbn [andb] in Hwf.
  destruct (childItems item) as [items|]; [|discriminate].
  now rewrite (convertChildren_throws resource items IH Hwf).
Qed.

(** X10: the conversion of a node fails exactly when the node or a node
    below it, kept or not, has no span or has an empty label; otherwise it
    returns. *)
Theorem convertNavTree_throws_iff resource bucket item :
  convertNavTree resource bucket item = Throws
  <-> convertible item = false.
Proof.
  split.
  - intros Hthrows. destruct (convertible item) eqn:Hwf; [|reflexivity].
    rewrite (convertNavTree_emitted resource item Hwf) in Hthrows.
    discriminate.
  - intros Hwf. now apply convertNavTree_throws.
Qed.

Lemma convertChildren_resource resource1 resource2 items :
  Forall (fun child =>
            forall bucket,
              convertNavTree resource1 bucket child
              = convertNavTree resource2 bucket child)
         items ->
  forall children shouldInclude,
    convertChildren resource1 items children shouldInclude
    = convertChildren resource2 items children shouldInclude.
Proof.
  induction 1 as [|child items Hchild _ IH]; intros children b;
    [reflexivity|].
  simpl. rewrite Hchild.
  destruct (convertNavTree resource2 children child) as [[cs inc]|];
    [apply IH|reflexivity].
Qed.

(** X11: the first argument of [convertNavTree] is passed along and never
    used. *)
Theorem convertNavTree_ignores_resource resource1 resource2 item :
  forall bucket,
    convertNavTree resource1 bucket item
    = convertNavTree resource2 bucket item.
Proof.
  induction item as [item IH] using NavigationTree_ind. intros bucket.
  rewrite !convertNavTree_eq. unfold childrenOf in IH.
  destruct (spans item !! 0%nat) as [span0|]; [|reflexivity].
  destruct (truthy_string (text item)); [|reflexivity].
  destruct (childItems item) as [items|]; [|reflexivity].
  now rewrite (convertChildren_resource resource1 resource2 items IH).
Qed.

(** *** What is kept *)

(** X12: inclusion goes upward: in a tree all of whose nodes carry a span
    and a non-empty label, the flag that [convertNavTree] returns is true
    exactly when the node or a node below it passes the filter; the bucket
    then grows by the one symbol of the node, and otherwise does not
    change. *)
Theorem convertNavTree_keeps_iff_qualifies_within resource bucket item :
  convertible item = true ->
  exists out flag,
    convertNavTree resource bucket item = Returns (out, flag)
    /\ (flag = true
        <-> exists n, n ∈ nodes item /\ shouldInclueEntry n = true)
    /\ (flag = true ->
        exists symbolInfo,
          out = bucket ++ [symbolInfo]
          /\ name symbolInfo = text item
          /\ symbolKind symbolInfo = getSymbolKind (kind item))
    /\ (flag = false -> out = bucket).
Proof.
  intros Hwf. rewrite (convertNavTree_emitted resource item Hwf).
  eexists _, _. split; [reflexivity|]. split; [|split].
  - unfold qualifies_within. rewrite existsb_exists.
    split; intros (n & Hn & Hq); exists n;
      (split; [now apply list_elem_of_In|assumption]).
  - intros Hq. rewrite emitted_eq, Hq.
    apply convertible_inv in Hwf as (Hs & _ & _). unfold has_span in Hs.
    destruct (spans item) as [|span0 rest]; [discriminate|].
    eexists. repeat split.
  - intros Hq. rewrite emitted_eq, Hq.
    destruct (spans item); apply app_nil_r.
Qed.

(** *** The output, symbol by symbol *)

Lemma nodes_trans item :
  forall d n, d ∈ nodes item -> n ∈ nodes d -> n ∈ nodes item.
Proof.
  induction item as [item IH] using NavigationTree_ind.
  intros d n Hd Hn. rewrite nodes_eq in Hd.
  apply elem_of_cons in Hd as [->|Hd]; [assumption|].
  apply list_elem_of_In, in_flat_map in Hd as (c & Hc & Hdc).
  rewrite Forall_forall in IH.
  rewrite nodes_eq. apply elem_of_cons. right.
  apply list_elem_of_In, in_flat_map. exists c. split; [assumption|].
  apply list_elem_of_In, (IH c (proj2 (list_elem_of_In _ _) Hc) d n);
    [now apply list_elem_of_In|assumption].
Qed.

Lemma qualifies_within_mono item d :
  d ∈ nodes item -> qualifies_within d = true -> qualifies_within item = true.
Proof.
  intros Hd Hq. unfold qualifies_within in Hq.
  apply existsb_exists in Hq as (n & Hn & Hqn).
  apply (qualifies_within_intro item n); [|assumption].
  apply (nodes_trans item d n Hd). now apply list_elem_of_In.
Qed.

Lemma filter_qualifies_within_nil item :
  qualifies_within item = false ->
  List.filter qualifies_within (nodes item) = [].
Proof.
  intros Hq.
  destruct (List.filter qualifies_within (nodes item)) as [|d l] eqn:Hf;
    [reflexivity|].
  assert (Hd : In d (List.filter qualifies_within (nodes item)))
    by (rewrite Hf; now left).
  apply filter_In in Hd as [Hd Hqd].
  rewrite (qualifies_within_mono item d) in Hq;
    [discriminate|now apply list_elem_of_In|assumption].
Qed.

Lemma emitted_names item :
  convertible item = true ->
  flat_map names_within (emitted item)
  = map text (List.filter qualifies_within (nodes item)).
Proof.
  induction item as [item IH] using NavigationTree_ind. intros Hwf.
  apply convertible_inv in Hwf as (Hs & _ & Hcs).
  rewrite emitted_eq. unfold has_span in Hs.
  destruct (spans item) as [|span0 rest]; [discriminate|].
  destruct (qualifies_within item) eqn:Hq.
  - cbn [flat_map]. rewrite app_nil_r, names_within_eq. cbn [name children].
    rewrite nodes_eq. cbn [List.filter]. rewrite Hq. cbn [map]. f_equal.
    clear Hq Hs. induction IH as [|c cs Hc _ IHcs]; [reflexivity|].
    simpl in Hcs. apply andb_true_iff in Hcs as [Hwc Hwcs].
    cbn [flat_map]. rewrite !flat_map_app, List.filter_app, map_app.
    now rewrite (Hc Hwc), (IHcs Hwcs).
  - now rewrite filter_qualifies_within_nil.
Qed.

(** X13: in a tree all of whose nodes carry a span and a non-empty label,
    the names of the symbols that the conversion of a node produces, read
    in document order through all levels, are the labels of the nodes
    that pass the filter or have a node below them that does, in the
    document order of the tree: no such node is lost, none is emitted
    twice, and no other node is emitted. *)
Theorem convertNavTree_names resource item :
  convertible item = true ->
  exists out flag,
    convertNavTree resource [] item = Returns (out, flag)
    /\ flat_map names_within out
       = map text (List.filter qualifies_within (nodes item)).
Proof.
  intros Hwf. rewrite (convertNavTree_emitted resource item Hwf).
  eexists _, _. split; [reflexivity|]. now apply emitted_names.
Qed.

Lemma symbols_within_eq (s : DocumentSymbol) :
  symbols_within s = s :: flat_map symbols_within (children s).
Proof. destruct s as [n d k r sr cs]. reflexivity. Qed.

Lemma emitted_shape item :
  convertible item = true ->
  Forall (fun s => name s <> "" /\ detail s = ""
                   /\ selectionRange s = range s)
         (flat_map symbols_within (emitted item)).
Proof.
  induction item as [item IH] using NavigationTree_ind. intros Hwf.
  apply convertible_inv in Hwf as (_ & Hl & Hcs).
  rewrite emitted_eq.
  destruct (spans item) as [|span0 rest]; [apply Forall_nil_2|].
  destruct (qualifies_within item); [|apply Forall_nil_2].
  cbn [flat_map]. rewrite app_nil_r, symbols_within_eq. cbn [children].
  apply Forall_cons. split.
  { cbn [name detail range selectionRange]. repeat split.
    unfold has_label, truthy_string in Hl.
    destruct (String.eqb_spec (text item) ""); [discriminate|assumption]. }
  induction IH as [|c cs Hc _ IHcs]; [apply Forall_nil_2|].
  simpl in Hcs. apply andb_true_iff in Hcs as [Hwc Hwcs].
  cbn [flat_map]. rewrite flat_map_app. apply Forall_app. split; auto.
Qed.

(** X14: whenever a call of [convertNavTree] returns, it has kept this
    true of its bucket: every symbol, at every level, has a non-empty
    name, an empty detail and a selection range equal to its range.  It
    returns on every tree all of whose nodes carry a span and a non-empty
    label. *)
Theorem convertNavTree_symbol_shape resource bucket item :
  Forall (fun s => name s <> "" /\ detail s = ""
                   /\ selectionRange s = range s)
         (flat_map symbols_within bucket) ->
  (forall out flag,
     convertNavTree resource bucket item = Returns (out, flag) ->
     Forall (fun s => name s <> "" /\ detail s = ""
                      /\ selectionRange s = range s)
            (flat_map symbols_within out))
  /\ (convertible item = true ->
      exists out flag, convertNavTree resource bucket item = Returns (out, flag)).
Proof.
  intros Hbucket. split.
  - intros out flag Hconv.
    destruct (convertible item) eqn:Hwf.
    + rewrite (convertNavTree_emitted resource item Hwf) in Hconv.
      injection Hconv as <- _.
      rewrite flat_map_app. apply Forall_app. split; [assumption|].
      now apply emitted_shape.
    + rewrite (convertNavTree_throws resource item Hwf) in Hconv.
      discriminate.
  - intros Hwf. rewrite (convertNavTree_emitted resource item Hwf).
    now eexists _, _.
Qed.

(** *** The answer of the provider *)

(** X16: once the path is known and the remote call has answered with a
    tree whose child items carry a span and a non-empty label on every
    node, the answer is the conversion of these child items, one after
    the other; the root stands for the file and is not in the answer, and
    its own label, kind and spans are not read. *)
Theorem provideDocumentSymbols_converts_child_items client
    (document : TextDocument) token file tree items :
  toPath client (uri document) = Some file ->
  file <> "" ->
  execute client "navtree" (mkFileRequestArgs file) token
  = Returns (mkResponse (Some tree)) ->
  childItems tree = Some items ->
  forallb convertible items = true ->
  provideDocumentSymbols client document token
  = Returns (Some (flat_map emitted items))
  /\ (length (flat_map emitted items) <= length items)%nat.
Proof.
  intros Hp Hfile Hcall Hc Hwf. split.
  - unfold provideDocumentSymbols, truthy_string. rewrite Hp.
    destruct (String.eqb_spec file "") as [Heq|_]; [contradiction|].
    cbn [negb]. rewrite Hcall. cbn [body]. rewrite Hc.
    now rewrite (forEach_convertNavTree_emitted _ items Hwf).
  - clear. induction items as [|item items IH]; [reflexivity|].
    cbn [flat_map]. rewrite length_app, emitted_eq. cbn [length].
    destruct (spans item); [simpl; lia|].
    destruct (qualifies_within item); simpl; lia.
Qed.

(** X15: the provider answers [undefined] in the situations of
    [no_result_case] and in no other: once the tree has a [childItems]
    array, even an empty one, the answer is an array or a failure of the
    conversion. *)
Theorem provideDocumentSymbols_undefined_iff client
    (document : TextDocument) token :
  provideDocumentSymbols client document token = Returns None
  <-> no_result_case client document token.
Proof.
  split.
  - unfold provideDocumentSymbols.
    destruct (toPath client (uri document)) as [file|] eqn:Hp;
      [|intros _; now apply path_unresolved].
    unfold truthy_string.
    destruct (String.eqb_spec file "") as [->|Hne]; cbn [negb];
      [intros _; now apply path_empty|].
    destruct (execute client "navtree" (mkFileRequestArgs file) token)
      as [[[tree|]]|] eqn:Hcall; cbn [body].
    + destruct (childItems tree) as [items|] eqn:Hc.
      * destruct (forEach_convertNavTree (uri document) items []);
          discriminate.
      * intros _. now apply (childItems_absent _ _ _ file tree).
    + intros _. now apply (body_absent _ _ _ file).
    + intros _. now apply (call_rejected _ _ _ file).
  - intros Hcase. unfold provideDocumentSymbols.
    destruct Hcase as [Hp|Hp|file Hp Hcall|file Hp Hcall|file tree Hp Hcall Hc];
      rewrite Hp; try reflexivity;
      destruct (truthy_string file); simpl; try reflexivity;
      rewrite Hcall; simpl; try reflexivity.
    now rewrite Hc.
Qed.
End DocumentSymbolsUseFacts.
Section Closed.
Local Existing Instance sampleHost.

Lemma getSymbolKind_default_witness :
  @getSymbolKind sampleHost "alias" = SymbolKind_Variable.
Proof.
  apply (@getSymbolKind_default sampleHost "alias").
  unfold known_kinds. rewrite !not_elem_of_cons.
  repeat split; try discriminate. apply not_elem_of_nil.
Defined.

Lemma getSymbolKind_table_witness :
  @getSymbolKind sampleHost "method" = SymbolKind_Method
  /\ @getSymbolKind sampleHost "local function" = SymbolKind_Function.
Proof.
  assert (Hdistinct : NoDup (@known_kinds sampleHost)).
  { unfold known_kinds. rewrite !NoDup_cons, !not_elem_of_cons.
    repeat split; try discriminate;
      first [apply not_elem_of_nil | apply NoDup_nil_2]. }
  pose proof (@getSymbolKind_table sampleHost Hdistinct) as Htable.
  split; [apply Htable|]. apply Htable.
Defined.

Lemma convertNavTree_keeps_iff_qualifies_within_witness :
  exists out flag,
    @convertNavTree sampleHost "/a.ts" []
      (sample_node "<class>" "class" (0, 9) [sample_leaf "m" "method" (2, 5)])
    = Returns (out, flag)
    /\ (flag = true -> exists symbolInfo, out = [] ++ [symbolInfo]).
Proof.
  destruct (convertNavTree_keeps_iff_qualifies_within
              ("/a.ts" : @Uri sampleHost) []
              (sample_node "<class>" "class" (0, 9)
                 [sample_leaf "m" "method" (2, 5)]) eq_refl)
    as (out & flag & Hconv & _ & Hkept & _).
  exists out, flag. split; [exact Hconv|].
  intros Hflag. destruct (Hkept Hflag) as (symbolInfo & Hout & _).
  now exists symbolInfo.
Defined.

Lemma convertNavTree_names_witness :
  exists out flag,
    @convertNavTree sampleHost "/a.ts" [] sample_function_tree
    = Returns (out, flag)
    /\ flat_map names_within out = ["<global>"; "<function>"; "x"].
Proof.
  exact (convertNavTree_names ("/a.ts" : @Uri sampleHost)
           sample_function_tree eq_refl).
Defined.

Lemma convertNavTree_symbol_shape_witness :
  exists out flag,
    @convertNavTree sampleHost "/a.ts" [] sample_alias_tree
    = Returns (out, flag)
    /\ Forall (fun s => name s <> "" /\ detail s = ""
                        /\ selectionRange s = range s)
              (flat_map symbols_within out).
Proof.
  destruct (convertNavTree_symbol_shape ("/a.ts" : @Uri sampleHost) []
              sample_alias_tree (Forall_nil_2 _)) as (Hshape & Hreturns).
  destruct (Hreturns eq_refl) as (out & flag & Hconv).
  exists out, flag. split; [exact Hconv|]. exact (Hshape out flag Hconv).
Defined.

(** A root without any span, of the alias kind and with an empty label,
    is converted all the same. *)
Lemma provideDocumentSymbols_converts_child_items_witness :
  provideDocumentSymbols
    (sample_client
       (@mkNavigationTree sampleHost "" "alias" []
          (Some [sample_leaf "x" "var" (20, 21)])))
    sample_document tt
  = Returns (Some [mkDocumentSymbol "x" "" SymbolKind_Variable
                     (20, 21) (20, 21) []]).
Proof.
  refine (proj1 (provideDocumentSymbols_converts_child_items
           (sample_client
              (@mkNavigationTree sampleHost "" "alias" []
                 (Some [sample_leaf "x" "var" (20, 21)])))
           sample_document tt "/a.ts"
           (@mkNavigationTree sampleHost "" "alias" []
              (Some [sample_leaf "x" "var" (20, 21)]))
           [sample_leaf "x" "var" (20, 21)] eq_refl _ eq_refl eq_refl eq_refl)).
  discriminate.
Defined.
End Closed.
End DocumentSymbolsUseFacts.

(** ** The quick-pick commands *)

Module QuickInputUseFacts.
Import JsArray QuickInput QuickInputFacts QuickInputUse.
Section QuickInputUseFacts.
Context {platform : Platform} {keyCodes : KeyCodes}
  {focusCodes : QuickPickFocus}.
Implicit Types (primary : Z) (secondary : list Z) (options : Options).

Ltac flags options :=
  unfold getSecondary, push;
  destruct (truthy (withAltMod options)) eqn:Halt;
  destruct (truthy (withCtrlMod options)) eqn:Hctrl;
  destruct (truthy (withCmdMod options)) eqn:Hcmd;
  destruct isMacintosh eqn:Hmac;
  cbn [andb].

(** X17: off the Macintosh the flag [withCmdMod] changes nothing. *)
Theorem withCmdMod_ignored_off_mac primary secondary alt ctrl cmd cmd' :
  isMacintosh = false ->
  getSecondary primary secondary (mkOptions alt ctrl cmd)
  = getSecondary primary secondary (mkOptions alt ctrl cmd').
Proof.
  intros Hmac. unfold getSecondary. cbn [withAltMod withCtrlMod withCmdMod].
  rewrite Hmac, !andb_false_r. reflexivity.
Qed.

(** X18: [getSecondary] adds one chord for each non-empty set of the flags in
    force (the command flag being in force on the Macintosh only): none
    without a flag, 1, 3 or 7 with one, two or three of them. *)
Theorem getSecondary_length primary secondary options :
  length (getSecondary primary secondary options)
  = (length secondary + (2 ^ flags_in_force options - 1))%nat.
Proof.
  unfold flags_in_force.
  flags options; rewrite ?Halt, ?Hctrl, ?Hcmd; cbn [andb];
    rewrite ?length_app; simpl; lia.
Qed.

(** X19: setting more flags only adds chords: what is generated under fewer
    flags is found, in the same order, in what is generated under more. *)
Theorem getSecondary_monotone primary options options' :
  flags_le options options' ->
  getSecondary primary [] options
  `sublist_of` getSecondary primary [] options'.
Proof.
  intros (Ha & Hc & Hm). unfold getSecondary, push.
  destruct (truthy (withAltMod options));
  destruct (truthy (withCtrlMod options));
  destruct (truthy (withCmdMod options));
  rewrite ?(Ha eq_refl), ?(Hc eq_refl), ?(Hm eq_refl);
  destruct (truthy (withAltMod options'));
  destruct (truthy (withCtrlMod options'));
  destruct (truthy (withCmdMod options'));
  destruct isMacintosh; cbn [andb app];
  repeat first [ apply sublist_nil
               | apply sublist_skip
               | apply sublist_cons ].
Qed.

(** X20: when the modifier bits are positive and each exceeds the sum of the
    lower ones, the chords that [getSecondary] generates are pairwise
    different and different from the primary chord. *)
Theorem getSecondary_fresh primary options :
  0 < KeyMod_WinCtrl ->
  KeyMod_WinCtrl < KeyMod_Alt ->
  KeyMod_WinCtrl + KeyMod_Alt < KeyMod_CtrlCmd ->
  NoDup (primary :: getSecondary primary [] options).
Proof.
  intros Hw Ha Hc.
  flags options; cbn [app];
    repeat (apply NoDup_cons_2;
            [rewrite ?not_elem_of_cons; repeat split;
             first [lia | apply not_elem_of_nil]|]);
    apply NoDup_nil_2.
Qed.

(** *** The registered commands *)

(** X21: the same ten commands are registered on every platform, in the same
    order, each of them once. *)
Theorem registered_commands :
  map (fun r => id (rule r)) registrations
  = [ "quickInput.pageNext"; "quickInput.pagePrevious"; "quickInput.first";
      "quickInput.last"; "quickInput.next"; "quickInput.previous";
      "quickInput.nextSeparatorWithQuickAccessFallback";
      "quickInput.nextSeparator";
      "quickInput.previousSeparatorWithQuickAccessFallback";
      "quickInput.previousSeparator" ]
  /\ NoDup (map (fun r => id (rule r)) registrations).
Proof.
  assert (Hids : map (fun r => id (rule r)) registrations
    = [ "quickInput.pageNext"; "quickInput.pagePrevious"; "quickInput.first";
        "quickInput.last"; "quickInput.next"; "quickInput.previous";
        "quickInput.nextSeparatorWithQuickAccessFallback";
        "quickInput.nextSeparator";
        "quickInput.previousSeparatorWithQuickAccessFallback";
        "quickInput.previousSeparator" ]).
  { unfold registrations. destruct isMacintosh; reflexivity. }
  split; [exact Hids|]. rewrite Hids.
  repeat (apply NoDup_cons_2;
          [rewrite ?not_elem_of_cons; repeat split;
           first [discriminate | apply not_elem_of_nil]|]).
  apply NoDup_nil_2.
Qed.

(** No handler does anything while no quick input is shown. *)
Lemma handlers_idle_without_quick_input (r : Registration) :
  r ∈ registrations -> handler r None = None.
Proof.
  unfold registrations. intros Hr.
  apply elem_of_app in Hr as [Hr|Hr].
  - repeat (apply elem_of_cons in Hr as [->|Hr]; [reflexivity|]).
    now apply elem_of_nil in Hr.
  - destruct isMacintosh;
      repeat (apply elem_of_cons in Hr as [->|Hr]; [reflexivity|]);
      now apply elem_of_nil in Hr.
Qed.

(** X22: the commands with the quick-access fallback do what the module says of
    them: while the quick pick is in quick-navigate mode they move to the
    next or the previous item, as [quickInput.next] and
    [quickInput.previous] do, and otherwise to the next or the previous
    separator, as [quickInput.nextSeparator] and
    [quickInput.previousSeparator] do.  The fallback members of the
    enumeration must be non-zero for that. *)
Theorem fallback_commands (currentQuickPick : IQuickPick) :
  QuickPickFocus_Next <> 0 ->
  QuickPickFocus_Previous <> 0 ->
  run_command "quickInput.nextSeparatorWithQuickAccessFallback"
    (Some currentQuickPick)
  = run_command
      (if quickNavigate currentQuickPick
       then "quickInput.next" else "quickInput.nextSeparator")
      (Some currentQuickPick)
  /\ run_command "quickInput.previousSeparatorWithQuickAccessFallback"
       (Some currentQuickPick)
     = run_command
         (if quickNavigate currentQuickPick
          then "quickInput.previous" else "quickInput.previousSeparator")
         (Some currentQuickPick).
Proof.
  intros Hnext Hprev.
  apply Z.eqb_neq in Hnext, Hprev.
  unfold run_command, registrations.
  destruct currentQuickPick as [[|]]; destruct isMacintosh;
    cbn; rewrite ?Hnext, ?Hprev; split; reflexivity.
Qed.
Lemma keycode_bounds (k : Key) :
  chord_layout -> 0 <= keycode k < KeyMod_WinCtrl.
Proof.
  intros (_ & Hbounds & _). rewrite !Forall_cons in Hbounds.
  destruct k; simpl; tauto.
Qed.

Lemma keycode_inj (k1 k2 : Key) :
  chord_layout -> keycode k1 = keycode k2 -> k1 = k2.
Proof.
  intros (Hkeys & _). rewrite !NoDup_cons, !not_elem_of_cons in Hkeys.
  destruct k1, k2; simpl; intros Heq;
    first [reflexivity | exfalso; intuition congruence].
Qed.

Lemma chord_value_inj (c1 c2 : SymbolicChord) :
  chord_layout -> chord_value c1 = chord_value c2 -> c1 = c2.
Proof.
  intros Hlayout.
  destruct c1 as [[[w1 a1] m1] k1], c2 as [[[w2 a2] m2] k2].
  pose proof (keycode_bounds k1 Hlayout) as Hk1.
  pose proof (keycode_bounds k2 Hlayout) as Hk2.
  pose proof (keycode_inj k1 k2 Hlayout) as Hinj.
  destruct Hlayout as (_ & _ & Halt & Hcmd).
  unfold chord_value.
  destruct w1, a1, m1, w2, a2, m2; intros Heq;
    first [exfalso; lia | rewrite Hinj by lia; reflexivity].
Qed.

Lemma registered_chords_symbolic :
  flat_map chords registrations
  = chord_value <$> symbolic_chords isMacintosh.
Proof.
  unfold registrations, chords, register, mac_nextSeparator,
    mac_previousSeparator, registerQuickPickCommandAndKeybindingRule,
    getSecondary, push, all_options, no_options, symbolic_chords, with_key.
  destruct isMacintosh; cbn -[Z.add Z.mul];
    repeat (apply (f_equal2 cons); [lia|]); reflexivity.
Qed.

Lemma symbolic_chords_distinct (mac : bool) : NoDup (symbolic_chords mac).
Proof.
  apply (bool_decide_unpack (NoDup (symbolic_chords mac))).
  destruct mac; vm_compute; exact I.
Qed.

(** X23: under the chord layout of the editor no chord is bound twice: the
    primary and secondary chords of all the registered rules are pairwise
    different, on the Macintosh and off it. *)
Theorem registered_chords_distinct :
  chord_layout -> NoDup (flat_map chords registrations).
Proof.
  intros Hlayout. rewrite registered_chords_symbolic.
  apply NoDup_fmap_2_strong; [|apply symbolic_chords_distinct].
  intros c1 c2 _ _. now apply chord_value_inj.
Qed.
End QuickInputUseFacts.

Section Closed.
Local Existing Instance editorKeyCodes.
Local Existing Instance editorQuickPickFocus.

Lemma withCmdMod_ignored_off_mac_witness :
  @getSecondary otherPlatform 18 [] (mkOptions (Some true) None (Some true))
  = @getSecondary otherPlatform 18 [] (mkOptions (Some true) None None).
Proof.
  exact (withCmdMod_ignored_off_mac (platform := otherPlatform)
           18 [] (Some true) None (Some true) None eq_refl).
Defined.

Lemma getSecondary_monotone_witness :
  @getSecondary macPlatform 18 [] (mkOptions None (Some true) None)
  `sublist_of` @getSecondary macPlatform 18 [] all_options.
Proof.
  apply (getSecondary_monotone (platform := macPlatform) 18
           (mkOptions None (Some true) None) all_options).
  repeat split; intros _; reflexivity.
Defined.

Lemma getSecondary_fresh_witness :
  NoDup (18 :: @getSecondary macPlatform 18 [] all_options).
Proof.
  apply (getSecondary_fresh (platform := macPlatform) 18 all_options);
    reflexivity.
Defined.

Lemma fallback_commands_witness :
  run_command (platform := otherPlatform)
    "quickInput.nextSeparatorWithQuickAccessFallback"
    (Some (mkQuickPick true))
  = Some (Some 4)
  /\ run_command (platform := otherPlatform)
       "quickInput.previousSeparatorWithQuickAccessFallback"
       (Some (mkQuickPick true))
     = Some (Some 5).
Proof.
  refine (fallback_commands (platform := otherPlatform)
            (mkQuickPick true) _ _);
    discriminate.
Defined.

Lemma chord_layout_editor (mac : bool) :
  chord_layout (platform := if mac then macPlatform else otherPlatform).
Proof.
  unfold chord_layout. destruct mac; cbn.
  all: split; [|split; [|split; [discriminate|discriminate]]].
  all: try (repeat (apply Forall_cons; split; [split; [discriminate|reflexivity]|]);
            apply Forall_nil_2).
  all: repeat (apply NoDup_cons_2;
               [rewrite ?not_elem_of_cons; repeat split;
                first [discriminate | apply not_elem_of_nil]|]);
       apply NoDup_nil_2.
Defined.

Lemma registered_chords_distinct_witness :
  NoDup (flat_map chords (registrations (platform := macPlatform)))
  /\ NoDup (flat_map chords (registrations (platform := otherPlatform))).
Proof.
  split.
  - exact (registered_chords_distinct (platform := macPlatform)
             (chord_layout_editor true)).
  - exact (registered_chords_distinct (platform := otherPlatform)
             (chord_layout_editor false)).
Defined.
End Closed.
End QuickInputUseFacts.
